(** * Live event relay of server.js: a shallow embedding and its properties

    The development follows src/server.js top to bottom: the payload
    transformers, the five global dictionaries, upstream acquisition
    ([getOrCreateTiktokConnectionWrapper]), the push handlers
    ([setStreamerId], the socket's disconnect handler, the upstream
    listeners) and the pull endpoint (GET /events).

    Modelling conventions.
    - A JavaScript object used as a dictionary is a [gmap] keyed by the
      property key (a string).  In the handler functions
      ([getOrCreateTiktokConnectionWrapper], [setStreamerId],
      [getEvents], ...) a lookup [m !! k] is the read [m[k]], and
      [m !! k = None] is a property that reads [undefined]: they are the
      handlers on the identifiers that [Object.prototype] does not
      provide, for which a read sees the own properties of the object
      and nothing else.  The five dictionaries are plain objects, so for
      the twelve names that [Object.prototype] provides ('constructor',
      'toString', '__proto__', ...) a read without own property yields
      the inherited member, which is truthy.  The functions whose names
      end in [AnyName] are the handlers on every identifier: there the
      [gmap] holds the own properties and [readsInherited] tells the
      reads that yield an inherited member.  The dispatch loop ([step])
      runs those; on an identifier that [Object.prototype] does not
      provide the two kinds agree ([getOrCreateAnyName_ordinary],
      [setStreamerIdAnyName_ordinary], [getEventsAnyName_ordinary]).
    - Streamer and requester identifiers are strings, as the query
      string [?streamerId=s&requesterId=r] and a push client that sends
      a unique name deliver them.
    - Numbers are integer-valued doubles, written as integers ([Z]):
      millisecond clock readings and the integer members that the
      upstream library decodes into its payloads, which are present and
      safe integers.  Where server.js multiplies, the rounding of the
      product to a double is written out ([roundDouble]).
    - Each handler runs to completion on the dispatch loop; the clock
      readings ([Date.now()]) taken during one run are taken equal and are
      passed to the handler as [now].
    - What the collaborators decide (does the constructor or [connect()]
      throw, does the limiter block the client) is an input of the handler
      that consults them. *)

From stdpp Require Import gmap strings list fin_maps.
From Stdlib Require Import ZArith Lia.

Open Scope string_scope.
Open Scope list_scope.
Open Scope Z_scope.

(** ** Payloads and event envelopes *)

(** The raw upstream payload: the properties that server.js reads, and the
    remaining ones ([rest]) which it only passes on. *)
Record RawData := mkRawData {
  userId : string;
  uniqueId : string;
  nickname : string;
  profilePictureUrl : string;
  viewerCount : Z;
  likeCount : Z;
  totalLikeCount : Z;
  comment : string;
  contentLanguage : string;
  giftId : Z;
  giftName : string;
  giftType : Z;
  giftPictureUrl : string;
  diamondCount : Z;
  repeatCount : Z;
  repeatEnd : bool;
  memberCount : Z;
  shareCount : Z;
  rest : list (string * string)
}.

Record UserBase := mkUserBase {
  ub_userId : string;
  ub_uniqueId : string;
  ub_nickname : string;
  ub_profilePictureUrl : string
}.

(** The [data] member of a stored event: one shape per projection, and the
    raw payload itself where server.js stores it whole.  The shapes tell
    how server.js built the value, not what a JavaScript comparison of
    the members would find: a projection and a payload that has the
    projected members only are different values here. *)
Inductive EventData :=
  | RoomUserData (viewers : Z)
  | LikeData (likes totalLikes : Z) (user : UserBase)
  | ChatData (text language : string) (user : UserBase)
  | GiftData (gid : Z) (gname : string) (gtype : Z) (gpicture : string)
             (diamonds : Z) (user : UserBase)
  | MemberData (members : Z) (user : UserBase)
  | ShareData (shares : Z) (user : UserBase)
  | UserData (user : UserBase)
  | RawPayload (raw : RawData).

Record Event := mkEvent {
  type : string;
  timestamp : Z;
  data : EventData
}.

(** Keep events for 30 minutes. *)
Definition DELETE_EVENTS_AGE : Z := 30 * 60 * 1000.

Definition eventTypesToStore : list string :=
  ["liveIntro"; "member"; "roomUser"; "chat"; "gift"; "like"; "follow";
   "share"; "emote"; "envelope"; "subscribe"; "superFan"; "streamEnd"].

Definition userBaseData (d : RawData) : UserBase :=
  {| ub_userId := userId d;
     ub_uniqueId := uniqueId d;
     ub_nickname := nickname d;
     ub_profilePictureUrl := profilePictureUrl d |}.

Definition isPendingStreak (d : RawData) : bool :=
  (giftType d =? 1) && negb (repeatEnd d).

(** [Number.isSafeInteger]: magnitude at most 2^53 - 1. *)
Definition safeInteger (n : Z) : Prop := Z.abs n ≤ 2 ^ 53 - 1.

(** The double nearest to an integer (ties to the even significand),
    for magnitudes below the overflow threshold of doubles: integers
    below 2^53 are doubles; a larger one keeps its 53 leading bits. *)
Definition roundDouble (n : Z) : Z :=
  let a := Z.abs n in
  if a <? 2 ^ 53 then n
  else
    let e := Z.log2 a - 52 in
    let q := a / 2 ^ e in
    let r := a mod 2 ^ e in
    let half := 2 ^ (e - 1) in
    let q' := if r <? half then q
              else if half <? r then q + 1
              else if Z.even q then q else q + 1 in
    Z.sgn n * (q' * 2 ^ e).

(** The product [a * b] of two doubles that hold safe integers. *)
Definition jsMultiply (a b : Z) : Z := roundDouble (a * b).

(** The diamondCount member of the gift projection (line 49). *)
Definition giftDiamondCount (d : RawData) : Z :=
  if negb (isPendingStreak d) && (diamondCount d >? 0)
  then jsMultiply (diamondCount d) (repeatCount d)
  else 0.

Definition giftTransformer (now : Z) (d : RawData) : Event :=
  {| type := "gift"; timestamp := now;
     data := GiftData (giftId d) (giftName d) (giftType d) (giftPictureUrl d)
                      (giftDiamondCount d) (userBaseData d) |}.

(** The three projections generated by the [map] of line 80. *)
Definition userOnlyTransformer (ty : string) (now : Z) (d : RawData) : Event :=
  {| type := ty; timestamp := now; data := UserData (userBaseData d) |}.

(** The dispatch table: [None] is a kind without an entry. *)
Definition eventTypeToTransformer (eventType : string)
  : option (Z → RawData → Event) :=
  if String.eqb eventType "roomUser" then
    Some (λ now d, {| type := "roomUser"; timestamp := now;
                      data := RoomUserData (viewerCount d) |})
  else if String.eqb eventType "like" then
    Some (λ now d, {| type := "like"; timestamp := now;
                      data := LikeData (likeCount d) (totalLikeCount d) (userBaseData d) |})
  else if String.eqb eventType "chat" then
    Some (λ now d, {| type := "chat"; timestamp := now;
                      data := ChatData (comment d) (contentLanguage d) (userBaseData d) |})
  else if String.eqb eventType "gift" then Some giftTransformer
  else if String.eqb eventType "member" then
    Some (λ now d, {| type := "member"; timestamp := now;
                      data := MemberData (memberCount d) (userBaseData d) |})
  else if String.eqb eventType "share" then
    Some (λ now d, {| type := "share"; timestamp := now;
                      data := ShareData (shareCount d) (userBaseData d) |})
  else if String.eqb eventType "streamEnd" then
    Some (λ now d, {| type := "streamEnd"; timestamp := now; data := RawPayload d |})
  else if String.eqb eventType "follow" then Some (userOnlyTransformer "follow")
  else if String.eqb eventType "subscribe" then Some (userOnlyTransformer "subscribe")
  else if String.eqb eventType "superFan" then Some (userOnlyTransformer "superFan")
  else None.

(** What the upstream listener appends to the buffer (lines 131-136). *)
Definition storedEvent (eventType : string) (now : Z) (d : RawData) : Event :=
  match eventTypeToTransformer eventType with
  | Some dataTransformer => dataTransformer now d
  | None => {| type := eventType; data := RawPayload d; timestamp := now |}
  end.

(** A payload in which only the gift members matter. *)
Definition giftPayload (gt : Z) (re : bool) (dc rc : Z) : RawData :=
  mkRawData "" "" "" "" 0 0 0 "" "" 0 "" gt "" dc rc re 0 0 [].

(** ** Sockets, options and upstream handles *)

(** A push-channel socket.  [socketId] is the object's identity (what
    [indexOf] compares); [socketKey] is the property key JavaScript derives
    from the object when it indexes [socketTostreamerIdMap[socket]]. *)
Record Socket := mkSocket {
  socketId : nat;
  socketKey : string
}.

#[global] Instance Socket_eq_dec : EqDecision Socket.
Proof. solve_decision. Defined.

(** A member of an options object. *)
Inductive OptVal :=
  | OBool (b : bool)
  | ONum (n : Z)
  | OStr (s : string)
  | OJson (text : string).

(** The [options] argument a push client sends: an object, or anything
    else ([undefined], [null], a primitive). *)
Inductive ClientArg :=
  | ArgObject (o : gmap string OptVal)
  | ArgOther.

(** What happens synchronously inside the [try] of lines 110-117: either
    the constructor or [connect()] throws and [err.toString()] is
    [errStr], or both return.  [connect()] is not awaited, so a failure
    that shows later is not seen there; it reaches this file only as the
    wrapper's 'disconnected' signal. *)
Inductive ConnectOutcome :=
  | ConnectThrows (errStr : string)
  | ConnectStarted.

(** The handle of line 111 with its two one-shot control listeners
    (lines 122-123): a flag is [true] until the listener has run. *)
Record Wrapper := mkWrapper {
  wrapperStreamerId : string;
  wrapperOptions : gmap string OptVal;
  wrapperSerial : nat;
  onceConnected : bool;
  onceDisconnected : bool
}.

(** The pair returned by [getOrCreateTiktokConnectionWrapper]:
    [[wrapper, undefined]] or [[undefined, errStr]]. *)
Inductive Acquisition :=
  | Handle (w : Wrapper)
  | Failure (errStr : string).

(** A value sent on the push channel. *)
Inductive Payload :=
  | PText (s : string)
  | PData (d : EventData)
  | PEvent (e : Event)
  | PStatistic (globalConnectionCount : Z).

(** One [socket.emit(name, payload)]. *)
Record Emit := mkEmit {
  emitTo : Socket;
  emitName : string;
  emitPayload : Payload
}.

(** A reply of GET /events: a 400 with a text body, [res.json] of an
    object with [events] and possibly [message], or the 500 with which
    express answers a handler that threw. *)
Inductive Response :=
  | Status400 (body : string)
  | Json (events : list (string * EventData)) (message : option string)
  | Status500.

(** The part of [process.env] that server.js reads. *)
Record Env := mkEnv {
  SESSIONID : option string;
  ENABLE_RATE_LIMIT : option string
}.

(** ** The global dictionaries *)

(** [constructed] is not a variable of server.js: it records, in order,
    every handle that was constructed and whose [connect()] returned,
    with the arguments given to the constructor. *)
Record State := mkState {
  streamEvents : gmap string (list Event);
  requesterIdToLastRequestTimestamp : gmap string Z;
  streamerIdToSocketsMap : gmap string (list Socket);
  socketTostreamerIdMap : gmap string string;
  streamerIdToTikTokConnectionWrapperMap : gmap string Wrapper;
  constructed : list (string * gmap string OptVal)
}.

Definition initialState : State := mkState ∅ ∅ ∅ ∅ ∅ [].

Definition withEvents (f : gmap string (list Event) → gmap string (list Event))
    (st : State) : State :=
  mkState (f (streamEvents st)) (requesterIdToLastRequestTimestamp st)
          (streamerIdToSocketsMap st) (socketTostreamerIdMap st)
          (streamerIdToTikTokConnectionWrapperMap st) (constructed st).

Definition withCursors (f : gmap string Z → gmap string Z) (st : State) : State :=
  mkState (streamEvents st) (f (requesterIdToLastRequestTimestamp st))
          (streamerIdToSocketsMap st) (socketTostreamerIdMap st)
          (streamerIdToTikTokConnectionWrapperMap st) (constructed st).

Definition withSockets (f : gmap string (list Socket) → gmap string (list Socket))
    (st : State) : State :=
  mkState (streamEvents st) (requesterIdToLastRequestTimestamp st)
          (f (streamerIdToSocketsMap st)) (socketTostreamerIdMap st)
          (streamerIdToTikTokConnectionWrapperMap st) (constructed st).

Definition withSocketStreamer (f : gmap string string → gmap string string)
    (st : State) : State :=
  mkState (streamEvents st) (requesterIdToLastRequestTimestamp st)
          (streamerIdToSocketsMap st) (f (socketTostreamerIdMap st))
          (streamerIdToTikTokConnectionWrapperMap st) (constructed st).

Definition withWrappers (f : gmap string Wrapper → gmap string Wrapper)
    (st : State) : State :=
  mkState (streamEvents st) (requesterIdToLastRequestTimestamp st)
          (streamerIdToSocketsMap st) (socketTostreamerIdMap st)
          (f (streamerIdToTikTokConnectionWrapperMap st)) (constructed st).

Definition withConstructed
    (f : list (string * gmap string OptVal) → list (string * gmap string OptVal))
    (st : State) : State :=
  mkState (streamEvents st) (requesterIdToLastRequestTimestamp st)
          (streamerIdToSocketsMap st) (socketTostreamerIdMap st)
          (streamerIdToTikTokConnectionWrapperMap st) (f (constructed st)).

(** JavaScript truthiness of a string and of a number. *)
Definition truthyString (s : string) : bool := negb (String.eqb s "").
Definition truthyNumber (n : Z) : bool := negb (n =? 0).

(** Truthiness of a property that is a string or [undefined]. *)
Definition truthyProp (p : option string) : bool :=
  match p with
  | Some s => truthyString s
  | None => false
  end.

Definition createInitialEventContainer : list Event := [].

(** ** Upstream acquisition (lines 103-143) *)

Definition getOrCreateTiktokConnectionWrapper (st : State) (streamerId : string)
    (options : gmap string OptVal) (outcome : ConnectOutcome)
  : State * Acquisition :=
  match streamerIdToTikTokConnectionWrapperMap st !! streamerId with
  | Some tiktokConnectionWrapper => (st, Handle tiktokConnectionWrapper)
  | None =>
      match outcome with
      | ConnectThrows errStr => (st, Failure errStr)
      | ConnectStarted =>
          let tiktokConnectionWrapper :=
            mkWrapper streamerId options (length (constructed st)) true true in
          (withConstructed (λ log, log ++ [(streamerId, options)])
             (withWrappers (insert streamerId tiktokConnectionWrapper) st),
           Handle tiktokConnectionWrapper)
      end
  end.

(** [streamerIdToSocketsMap[streamerId]?.forEach(socket => socket.emit(..))] *)
Definition broadcast (st : State) (streamerId name : string) (p : Payload)
  : list Emit :=
  match streamerIdToSocketsMap st !! streamerId with
  | Some socketList => map (λ socket, mkEmit socket name p) socketList
  | None => []
  end.

(** [if (!streamEvents[streamerId]) streamEvents[streamerId] = ...] *)
Definition ensureEventContainer (streamerId : string) (st : State) : State :=
  match streamEvents st !! streamerId with
  | Some _ => st
  | None => withEvents (insert streamerId createInitialEventContainer) st
  end.

(** The listener registered for every kind of [eventTypesToStore]
    (lines 127-139): store the transformed event, pass the payload that
    was received on to the sockets. *)
Definition onUpstreamEvent (st : State) (streamerId eventType : string)
    (now : Z) (d : RawData) : State * list Emit :=
  let st1 := ensureEventContainer streamerId st in
  (withEvents (alter (λ events, events ++ [storedEvent eventType now d]) streamerId) st1,
   broadcast st1 streamerId eventType (PData (RawPayload d))).

(** The one-shot listeners of lines 122-123. *)
Definition onConnected (st : State) (streamerId state : string) : State * list Emit :=
  match streamerIdToTikTokConnectionWrapperMap st !! streamerId with
  | Some w =>
      if onceConnected w then
        (withWrappers (insert streamerId
           (mkWrapper (wrapperStreamerId w) (wrapperOptions w) (wrapperSerial w)
                      false (onceDisconnected w))) st,
         broadcast st streamerId "tiktokConnected" (PText state))
      else (st, [])
  | None => (st, [])
  end.

Definition onDisconnected (st : State) (streamerId reason : string) : State * list Emit :=
  match streamerIdToTikTokConnectionWrapperMap st !! streamerId with
  | Some w =>
      if onceDisconnected w then
        (withWrappers (insert streamerId
           (mkWrapper (wrapperStreamerId w) (wrapperOptions w) (wrapperSerial w)
                      (onceConnected w) false)) st,
         broadcast st streamerId "tiktokDisconnected" (PText reason))
      else (st, [])
  | None => (st, [])
  end.

(** ** The push handlers (lines 145-210) *)

Definition rateLimitMessage : string :=
  "You have opened too many connections or made too many connection requests. Please reduce the number of connections/requests or host your own server instance. The connections are limited to avoid that the server IP gets blocked by TokTok.".

(** Lines 152-164: the options as they leave the client-controlled part. *)
Definition sanitizeOptions (env : Env) (options : ClientArg) : gmap string OptVal :=
  let options :=
    match options with
    | ArgObject o => delete "websocketOptions" (delete "requestOptions" o)
    | ArgOther => ∅
    end in
  match SESSIONID env with
  | Some sessionId =>
      if truthyString sessionId
      then <["sessionId" := OStr sessionId]> options
      else options
  | None => options
  end.

(** [blocked] is what [clientBlocked(io, socket)] answers. *)
Definition setStreamerId (env : Env) (st : State) (socket : Socket)
    (streamerId : string) (options : ClientArg) (blocked : bool)
    (outcome : ConnectOutcome) : State * list Emit :=
  let options := sanitizeOptions env options in
  if truthyProp (ENABLE_RATE_LIMIT env) && blocked then
    (st, [mkEmit socket "tiktokDisconnected" (PText rateLimitMessage)])
  else
    let st1 :=
      match streamerIdToSocketsMap st !! streamerId with
      | Some _ => st
      | None => withSockets (insert streamerId []) st
      end in
    match getOrCreateTiktokConnectionWrapper st1 streamerId options outcome with
    | (st2, Handle _) =>
        (withSocketStreamer (insert (socketKey socket) streamerId)
           (withSockets (alter (λ socketList, socketList ++ [socket]) streamerId) st2),
         [])
    | (st2, Failure errStr) =>
        (st2, [mkEmit socket "tiktokDisconnected" (PText errStr)])
    end.

(** [socketList.splice(socketList.indexOf(socket), 1)] when the index is
    not -1: the first occurrence goes. *)
Fixpoint removeFirst (socket : Socket) (socketList : list Socket) : list Socket :=
  match socketList with
  | [] => []
  | s :: tl => if decide (s = socket) then tl else s :: removeFirst socket tl
  end.

(** The socket's 'disconnect' handler.  Writing [undefined] under a key
    is modelled as removing the key: the map is only ever read by key.
    The list of a recorded streamer exists in every state the server
    reaches ([run_recordedHasList]), so [indexOf] is never called on
    [undefined]. *)
Definition onSocketDisconnect (st : State) (socket : Socket) : State :=
  match socketTostreamerIdMap st !! socketKey socket with
  | Some streamerId =>
      if truthyString streamerId then
        withSocketStreamer (delete (socketKey socket))
          (withSockets (alter (removeFirst socket) streamerId) st)
      else st
  | None => st
  end.

(** ** The pull endpoint (lines 213-250) *)

Definition pollOptions : gmap string OptVal :=
  {[ "enableExtendedGiftInfo" := OBool true ]}.

Definition registeredMessage : string := "New ID registered. No events yet.".

(** The events a poll selects (line 241) and the ones the sweep keeps
    (line 245). *)
Definition newerThan (since : Z) (events : list Event) : list Event :=
  List.filter (λ event, timestamp event >? since) events.

Definition bufferOf (st : State) (streamerId : string) : list Event :=
  default [] (streamEvents st !! streamerId).

Definition cursorOf (st : State) (requesterId : string) : option Z :=
  match requesterIdToLastRequestTimestamp st !! requesterId with
  | Some t => if truthyNumber t then Some t else None
  | None => None
  end.

Definition publicEvent (event : Event) : string * EventData :=
  (type event, data event).

(** The part of the handler after upstream acquisition (lines 231-249). *)
Definition answerPoll (st : State) (streamerId requesterId : string) (now : Z)
  : State * Response :=
  let st := ensureEventContainer streamerId st in
  match cursorOf st requesterId with
  | None =>
      (withCursors (insert requesterId now) st,
       Json [] (Some registeredMessage))
  | Some lastRequest =>
      let events := bufferOf st streamerId in
      let newEvents := newerThan lastRequest events in
      (withEvents (insert streamerId (newerThan (now - DELETE_EVENTS_AGE) events))
         (withCursors (insert requesterId now) st),
       Json (map publicEvent newEvents) None)
  end.

(** A query parameter that passes the [!param] tests of lines 215-220. *)
Definition presentParam (p : option string) : option string :=
  match p with
  | Some s => if truthyString s then Some s else None
  | None => None
  end.

Definition getEvents (st : State) (streamerId requesterId : option string)
    (now : Z) (outcome : ConnectOutcome) : State * Response :=
  match presentParam streamerId with
  | None => (st, Status400 "Missing streamerId parameter.")
  | Some streamerId =>
      match presentParam requesterId with
      | None => (st, Status400 "Missing requesterId parameter.")
      | Some requesterId =>
          match getOrCreateTiktokConnectionWrapper st streamerId pollOptions outcome with
          | (st1, Failure errStr) =>
              if truthyString errStr then (st1, Json [] (Some errStr))
              else answerPoll st1 streamerId requesterId now
          | (st1, Handle _) => answerPoll st1 streamerId requesterId now
          end
      end
  end.

(** ** The handlers on every identifier *)

(** The members of [Object.prototype] in Node.js.  Each is a function,
    except '__proto__', which reads as [Object.prototype] itself: all
    are truthy, none has a member [events] or [push], and each compares
    with a number as NaN does. *)
Definition objectPrototypeNames : list string :=
  ["constructor"; "__defineGetter__"; "__defineSetter__"; "hasOwnProperty";
   "__lookupGetter__"; "__lookupSetter__"; "isPrototypeOf";
   "propertyIsEnumerable"; "toString"; "valueOf"; "__proto__";
   "toLocaleString"].

Definition inheritedName (k : string) : bool :=
  bool_decide (k ∈ objectPrototypeNames).

(** [obj[k]] yields an inherited member: [k] is no own property and
    [Object.prototype] provides it. *)
Definition readsInherited {A} (m : gmap string A) (k : string) : bool :=
  match m !! k with
  | Some _ => false
  | None => inheritedName k
  end.

(** [obj[k] = v] for a [v] that is not an object: a new own property,
    except that '__proto__' without own property is the inherited
    setter, which ignores such a value. *)
Definition assignPrimitive {A} (k : string) (v : A) (m : gmap string A)
  : gmap string A :=
  match m !! k with
  | Some _ => <[k := v]> m
  | None => if String.eqb k "__proto__" then m else <[k := v]> m
  end.

(** What [getOrCreateTiktokConnectionWrapper] returns in the first place
    of its pair on any identifier: what the function does on an
    ordinary identifier, or the inherited member that line 106 took for
    a cached handle. *)
Inductive AcquisitionAnyName :=
  | Ordinary (a : Acquisition)
  | InheritedMember.

Definition getOrCreateTiktokConnectionWrapperAnyName (st : State)
    (streamerId : string) (options : gmap string OptVal) (outcome : ConnectOutcome)
  : State * AcquisitionAnyName :=
  if readsInherited (streamerIdToTikTokConnectionWrapperMap st) streamerId
  then (st, InheritedMember)
  else
    let '(st', a) :=
      getOrCreateTiktokConnectionWrapper st streamerId options outcome in
    (st', Ordinary a).

(** What one dispatch emits and replies, and whether the handler threw
    an exception that nothing catches. *)
Record Output := mkOutput {
  emitted : list Emit;
  replied : option Response;
  thrown : bool
}.

(** [setStreamerId] on any identifier.  Where line 173 finds an
    inherited member, [socketList] is that member, and line 184 throws
    ([push] is not a function) whenever the acquisition returned
    something truthy; line 185 is then not reached. *)
Definition setStreamerIdAnyName (env : Env) (st : State) (socket : Socket)
    (streamerId : string) (options : ClientArg) (blocked : bool)
    (outcome : ConnectOutcome) : State * Output :=
  let options := sanitizeOptions env options in
  if truthyProp (ENABLE_RATE_LIMIT env) && blocked then
    (st, mkOutput [mkEmit socket "tiktokDisconnected" (PText rateLimitMessage)]
           None false)
  else if readsInherited (streamerIdToSocketsMap st) streamerId then
    match getOrCreateTiktokConnectionWrapperAnyName st streamerId options outcome with
    | (st2, Ordinary (Failure errStr)) =>
        (st2, mkOutput [mkEmit socket "tiktokDisconnected" (PText errStr)] None false)
    | (st2, _) => (st2, mkOutput [] None true)
    end
  else
    let st1 :=
      match streamerIdToSocketsMap st !! streamerId with
      | Some _ => st
      | None => withSockets (insert streamerId []) st
      end in
    match getOrCreateTiktokConnectionWrapperAnyName st1 streamerId options outcome with
    | (st2, Ordinary (Failure errStr)) =>
        (st2, mkOutput [mkEmit socket "tiktokDisconnected" (PText errStr)] None false)
    | (st2, _) =>
        (withSocketStreamer (insert (socketKey socket) streamerId)
           (withSockets (alter (λ socketList, socketList ++ [socket]) streamerId) st2),
         mkOutput [] None false)
    end.

(** Lines 231-249 on any identifier.  An inherited member read at line
    231 is taken for the container, so none is created, and line 241
    then throws, as the member has no [events]; an inherited member read
    at line 235 is taken for a cursor, and no time stamp is greater than
    it. *)
Definition answerPollAnyName (st : State) (streamerId requesterId : string)
    (now : Z) : State * Response :=
  let st :=
    if readsInherited (streamEvents st) streamerId then st
    else ensureEventContainer streamerId st in
  if readsInherited (requesterIdToLastRequestTimestamp st) requesterId then
    match streamEvents st !! streamerId with
    | None => (st, Status500)
    | Some events =>
        (withEvents (insert streamerId (newerThan (now - DELETE_EVENTS_AGE) events))
           (withCursors (assignPrimitive requesterId now) st),
         Json [] None)
    end
  else
    match cursorOf st requesterId with
    | None =>
        (withCursors (insert requesterId now) st,
         Json [] (Some registeredMessage))
    | Some lastRequest =>
        match streamEvents st !! streamerId with
        | None => (st, Status500)
        | Some events =>
            (withEvents
               (insert streamerId (newerThan (now - DELETE_EVENTS_AGE) events))
               (withCursors (insert requesterId now) st),
             Json (map publicEvent (newerThan lastRequest events)) None)
        end
    end.

(** GET /events on any identifier. *)
Definition getEventsAnyName (st : State) (streamerId requesterId : option string)
    (now : Z) (outcome : ConnectOutcome) : State * Response :=
  match presentParam streamerId with
  | None => (st, Status400 "Missing streamerId parameter.")
  | Some streamerId =>
      match presentParam requesterId with
      | None => (st, Status400 "Missing requesterId parameter.")
      | Some requesterId =>
          match getOrCreateTiktokConnectionWrapperAnyName st streamerId pollOptions
                  outcome with
          | (st1, Ordinary (Failure errStr)) =>
              if truthyString errStr then (st1, Json [] (Some errStr))
              else answerPollAnyName st1 streamerId requesterId now
          | (st1, _) => answerPollAnyName st1 streamerId requesterId now
          end
      end
  end.

(** ** The dispatch loop *)

(** What can be dispatched: a push client's message, its disconnection, a
    GET /events request, the three kinds of signal of an upstream
    handle, and the timer of lines 253-255, which sends the connection
    count to every socket that socket.io holds connected. *)
Inductive Action :=
  | SetStreamerId (socket : Socket) (streamerId : string) (options : ClientArg)
                  (blocked : bool) (outcome : ConnectOutcome)
  | SocketDisconnect (socket : Socket)
  | GetEvents (streamerId requesterId : option string) (outcome : ConnectOutcome)
  | UpstreamEvent (streamerId eventType : string) (d : RawData)
  | UpstreamConnected (streamerId state : string)
  | UpstreamDisconnected (streamerId reason : string)
  | StatisticTick (connected : list Socket) (globalConnectionCount : Z).

(** An upstream signal finds a listener only on a handle that went
    through lines 119-140, and only for the kinds listed there.  A
    handler that threw leaves the state as it had made it; whether the
    process survives the exception is not decided here. *)
Definition step (env : Env) (st : State) (now : Z) (a : Action) : State * Output :=
  match a with
  | SetStreamerId socket streamerId options blocked outcome =>
      setStreamerIdAnyName env st socket streamerId options blocked outcome
  | SocketDisconnect socket => (onSocketDisconnect st socket, mkOutput [] None false)
  | GetEvents streamerId requesterId outcome =>
      let '(st', r) := getEventsAnyName st streamerId requesterId now outcome in
      (st', mkOutput [] (Some r) false)
  | UpstreamEvent streamerId eventType d =>
      match streamerIdToTikTokConnectionWrapperMap st !! streamerId with
      | Some _ =>
          if decide (eventType ∈ eventTypesToStore) then
            let '(st', out) := onUpstreamEvent st streamerId eventType now d in
            (st', mkOutput out None false)
          else (st, mkOutput [] None false)
      | None => (st, mkOutput [] None false)
      end
  | UpstreamConnected streamerId state =>
      let '(st', out) := onConnected st streamerId state in
      (st', mkOutput out None false)
  | UpstreamDisconnected streamerId reason =>
      let '(st', out) := onDisconnected st streamerId reason in
      (st', mkOutput out None false)
  | StatisticTick connected globalConnectionCount =>
      (st, mkOutput (map (λ socket, mkEmit socket "statistic"
                                      (PStatistic globalConnectionCount))
                       connected) None false)
  end.

(** The state after a sequence of dispatches, each with its clock reading. *)
Fixpoint run (env : Env) (st : State) (trace : list (Z * Action)) : State :=
  match trace with
  | [] => st
  | (now, a) :: rest => run env (step env st now a).1 rest
  end.

(** How often a streamer identifier occurs in the construction log. *)
Definition constructedFor (st : State) (streamerId : string) : nat :=
  length (List.filter (λ entry, String.eqb entry.1 streamerId) (constructed st)).

(** The diamond count carried by a gift envelope. *)
Definition envelopeDiamondCount (e : Event) : option Z :=
  match data e with
  | GiftData _ _ _ _ diamonds _ => Some diamonds
  | _ => None
  end.

(** ** Notions used to state the properties *)

(** The events of a reply. *)
Definition responseEvents (r : Response) : list (string * EventData) :=
  match r with
  | Status400 _ => []
  | Json events _ => events
  | Status500 => []
  end.

(** A handle is cached for the streamer, or constructing one succeeds. *)
Definition acquirable (st : State) (streamerId : string) (outcome : ConnectOutcome)
  : Prop :=
  is_Some (streamerIdToTikTokConnectionWrapperMap st !! streamerId)
  ∨ outcome = ConnectStarted.

(** The cache and the construction log agree: a streamer identifier was
    given to a successful construction once if it has a cached handle and
    never otherwise. *)
Definition handleInv (st : State) : Prop :=
  ∀ streamerId,
    constructedFor st streamerId =
      match streamerIdToTikTokConnectionWrapperMap st !! streamerId with
      | Some _ => 1%nat
      | None => 0%nat
      end.

(** The requester has an entry in the cursor table and it is not below
    [t]. *)
Definition cursorAtLeast (st : State) (requesterId : string) (t : Z) : Prop :=
  ∃ c, requesterIdToLastRequestTimestamp st !! requesterId = Some c ∧ t ≤ c.

(** Every dispatch of the trace reads a clock that is not below [t]. *)
Definition clockFrom (t : Z) (trace : list (Z * Action)) : Prop :=
  Forall (λ d, t ≤ d.1) trace.

(** How many entries of a streamer's socket list are the given socket. *)
Definition memberships (st : State) (socket : Socket) (streamerId : string) : nat :=
  length (List.filter (λ s, bool_decide (s = socket))
            (default [] (streamerIdToSocketsMap st !! streamerId))).

(** Every streamer recorded for a socket key has a socket list. *)
Definition recordedHasList (st : State) : Prop :=
  ∀ key streamerId,
    socketTostreamerIdMap st !! key = Some streamerId →
    is_Some (streamerIdToSocketsMap st !! streamerId).

(** The kinds of [eventTypesToStore] whose stored [data] is the payload
    itself: the three without an entry in [eventTypeToTransformer], and
    'streamEnd', whose entry passes the payload through. *)
Definition passThroughKinds : list string :=
  ["liveIntro"; "emote"; "envelope"; "streamEnd"].

(** How many of the emits go to the given socket. *)
Definition emitsTo (socket : Socket) (out : list Emit) : nat :=
  length (List.filter (λ e, bool_decide (emitTo e = socket)) out).

(** The stamps of a buffer do not decrease from front to back. *)
Fixpoint timeOrdered (events : list Event) : Prop :=
  match events with
  | [] => True
  | e :: later =>
      (∀ e', e' ∈ later → timestamp e ≤ timestamp e') ∧ timeOrdered later
  end.

(** The clock readings of a trace do not decrease, starting from [t]. *)
Fixpoint monotoneClock (t : Z) (trace : list (Z * Action)) : Prop :=
  match trace with
  | [] => True
  | (now, _) :: rest => t ≤ now ∧ monotoneClock now rest
  end.

(** [w'] is the handle [w] at a later time: the same construction, with
    one-shot listeners that can only have been used up in between. *)
Definition laterStateOf (w w' : Wrapper) : Prop :=
  wrapperStreamerId w' = wrapperStreamerId w
  ∧ wrapperOptions w' = wrapperOptions w
  ∧ wrapperSerial w' = wrapperSerial w
  ∧ (onceConnected w = false → onceConnected w' = false)
  ∧ (onceDisconnected w = false → onceDisconnected w' = false).

(** What each dispatch of a trace emits and replies, in order. *)
Fixpoint runOutputs (env : Env) (st : State) (trace : list (Z * Action))
  : list Output :=
  match trace with
  | [] => []
  | (now, a) :: rest =>
      (step env st now a).2 :: runOutputs env (step env st now a).1 rest
  end.

(** The sockets that sent a subscription in the trace. *)
Fixpoint askedToSubscribe (trace : list (Z * Action)) : list Socket :=
  match trace with
  | [] => []
  | (_, SetStreamerId socket _ _ _ _) :: rest => socket :: askedToSubscribe rest
  | _ :: rest => askedToSubscribe rest
  end.

(** The socket is in the socket list of some streamer. *)
Definition listed (st : State) (socket : Socket) : Prop :=
  ∃ k, socket ∈ default [] (streamerIdToSocketsMap st !! k).

(** No handle is cached under a name that [Object.prototype] provides. *)
Definition noInheritedHandle (st : State) : Prop :=
  ∀ k, inheritedName k = true →
       streamerIdToTikTokConnectionWrapperMap st !! k = None.

(** No buffer and no socket list is kept under a name that
    [Object.prototype] provides. *)
Definition noInheritedStreamer (st : State) : Prop :=
  ∀ k, inheritedName k = true →
       streamEvents st !! k = None ∧ streamerIdToSocketsMap st !! k = None.

(** ** Sample data *)

(** An environment without session identifier and without rate limit. *)
Definition noEnv : Env := mkEnv None None.

(** A sample chat payload. *)
Definition sampleChat : RawData :=
  mkRawData "7" "viewer" "Viewer" "" 0 0 0 "hello" "en" 0 "" 0 "" 0 0 false 0 0 [].

(** A socket object without a string conversion of its own: as a
    property key it reads "[object Object]". *)
Definition sampleSocket : Socket := mkSocket 1 "[object Object]".

(** * Properties *)

(** ** Gift normalisation *)

Lemma giftDiamondCount_cases d :
  giftDiamondCount d =
    if ((giftType d =? 1) && negb (repeatEnd d)) || (diamondCount d <=? 0)
    then 0 else jsMultiply (diamondCount d) (repeatCount d).
Proof.
  unfold giftDiamondCount, isPendingStreak.
  destruct (giftType d =? 1), (repeatEnd d); simpl; try reflexivity;
    destruct (Z.gtb_spec (diamondCount d) 0), (Z.leb_spec (diamondCount d) 0);
    first [reflexivity | lia].
Qed.

(** A product of magnitude at most 2^53 is a double: it is not rounded. *)
Lemma roundDouble_exact n : Z.abs n ≤ 2 ^ 53 → roundDouble n = n.
Proof.
  intros Hn. unfold roundDouble.
  destruct (Z.ltb_spec (Z.abs n) (2 ^ 53)) as [Hlt | Hge]; [reflexivity |].
  assert (Habs : Z.abs n = 2 ^ 53) by lia.
  rewrite Habs.
  destruct (Z.abs_eq_or_opp n) as [Hn' | Hn']; rewrite Hn' in Habs.
  - subst n. vm_compute. reflexivity.
  - assert (n = - 2 ^ 53) as -> by lia. vm_compute. reflexivity.
Qed.

(** C2. For a gift payload whose diamondCount and repeatCount are safe
    integers, the stored envelope carries diamondCount 0 when the payload
    is a non-terminal streak frame (giftType is 1 and repeatEnd is
    false) or its diamondCount is at most 0, and otherwise the product
    diamondCount * repeatCount as server.js computes it, which is the
    exact product whenever that is of magnitude at most 2^53 and the
    double nearest to it beyond; the three sample payloads give 0, 15
    and 15 (the third, which names no repeatEnd, with either value of
    it). *)
Theorem gift_envelope_diamond_count :
  (∀ now d,
     safeInteger (diamondCount d) →
     safeInteger (repeatCount d) →
     envelopeDiamondCount (storedEvent "gift" now d) =
       Some (if ((giftType d =? 1) && negb (repeatEnd d)) || (diamondCount d <=? 0)
             then 0 else jsMultiply (diamondCount d) (repeatCount d))
     ∧ (Z.abs (diamondCount d * repeatCount d) ≤ 2 ^ 53 →
        jsMultiply (diamondCount d) (repeatCount d)
        = diamondCount d * repeatCount d))
  ∧ (∀ now, envelopeDiamondCount (storedEvent "gift" now (giftPayload 1 false 5 3)) = Some 0)
  ∧ (∀ now, envelopeDiamondCount (storedEvent "gift" now (giftPayload 1 true 5 3)) = Some 15)
  ∧ (∀ now re, envelopeDiamondCount (storedEvent "gift" now (giftPayload 0 re 5 3)) = Some 15).
Proof.
  split; [| split; [| split]].
  - intros now d _ _. split.
    + cbn. f_equal. apply giftDiamondCount_cases.
    + apply roundDouble_exact.
  - reflexivity.
  - reflexivity.
  - intros now []; reflexivity.
Qed.

Lemma gift_envelope_diamond_count_witness :
  envelopeDiamondCount
    (storedEvent "gift" 0 (giftPayload 0 false 94906267 94906267))
  = Some 9007199515875288
  ∧ envelopeDiamondCount (storedEvent "gift" 0 (giftPayload 0 false 1000 30000))
    = Some 30000000.
Proof.
  split.
  - destruct gift_envelope_diamond_count as [H _].
    destruct (H 0 (giftPayload 0 false 94906267 94906267)) as [Hv _].
    + unfold safeInteger. cbn. lia.
    + unfold safeInteger. cbn. lia.
    + rewrite Hv. vm_compute. reflexivity.
  - destruct gift_envelope_diamond_count as [H _].
    destruct (H 0 (giftPayload 0 false 1000 30000)) as [Hv _].
    + unfold safeInteger. cbn. lia.
    + unfold safeInteger. cbn. lia.
    + rewrite Hv. vm_compute. reflexivity.
Defined.
(** ** One handle per streamer identifier *)

Lemma handleInv_frame st st' :
  constructed st' = constructed st →
  (∀ k, is_Some (streamerIdToTikTokConnectionWrapperMap st' !! k) ↔
        is_Some (streamerIdToTikTokConnectionWrapperMap st !! k)) →
  handleInv st → handleInv st'.
Proof.
  intros Hlog Hdom Hinv k. unfold constructedFor. rewrite Hlog.
  specialize (Hinv k). unfold constructedFor in Hinv. rewrite Hinv.
  specialize (Hdom k).
  destruct (streamerIdToTikTokConnectionWrapperMap st' !! k) as [w'|] eqn:E';
    destruct (streamerIdToTikTokConnectionWrapperMap st !! k) as [w|] eqn:E;
    try reflexivity.
  - destruct Hdom as [Hdom _]. destruct Hdom as [? ?]; [eauto | discriminate].
  - destruct Hdom as [_ Hdom]. destruct Hdom as [? ?]; [eauto | discriminate].
Qed.

Lemma constructedFor_snoc st st' streamerId options k :
  constructed st' = constructed st ++ [(streamerId, options)] →
  constructedFor st' k =
    (constructedFor st k + (if decide (streamerId = k) then 1 else 0))%nat.
Proof.
  intros Hlog. unfold constructedFor. rewrite Hlog, List.filter_app, length_app.
  f_equal. cbn. destruct (String.eqb_spec streamerId k); case_decide;
    first [reflexivity | congruence].
Qed.

Lemma getOrCreate_handleInv st streamerId options outcome :
  handleInv st →
  handleInv (getOrCreateTiktokConnectionWrapper st streamerId options outcome).1.
Proof.
  intros Hinv. unfold getOrCreateTiktokConnectionWrapper.
  destruct (streamerIdToTikTokConnectionWrapperMap st !! streamerId) eqn:E;
    [exact Hinv |].
  destruct outcome; [exact Hinv |].
  intros k. cbn [fst].
  erewrite (constructedFor_snoc st _ streamerId options k) by reflexivity.
  cbn. rewrite (Hinv k). rewrite lookup_insert.
  case_decide; subst.
  - rewrite E. reflexivity.
  - destruct (streamerIdToTikTokConnectionWrapperMap st !! k); reflexivity.
Qed.

Lemma getOrCreate_frame st streamerId options outcome :
  let st' := (getOrCreateTiktokConnectionWrapper st streamerId options outcome).1 in
  streamEvents st' = streamEvents st
  ∧ requesterIdToLastRequestTimestamp st' = requesterIdToLastRequestTimestamp st
  ∧ streamerIdToSocketsMap st' = streamerIdToSocketsMap st
  ∧ socketTostreamerIdMap st' = socketTostreamerIdMap st.
Proof.
  unfold getOrCreateTiktokConnectionWrapper.
  destruct (streamerIdToTikTokConnectionWrapperMap st !! streamerId);
    [| destruct outcome]; cbn; auto.
Qed.

Lemma ensureEventContainer_handles streamerId st :
  constructed (ensureEventContainer streamerId st) = constructed st
  ∧ streamerIdToTikTokConnectionWrapperMap (ensureEventContainer streamerId st)
    = streamerIdToTikTokConnectionWrapperMap st.
Proof.
  unfold ensureEventContainer. destruct (streamEvents st !! streamerId); auto.
Qed.

Lemma answerPoll_handles st streamerId requesterId now :
  constructed (answerPoll st streamerId requesterId now).1 = constructed st
  ∧ streamerIdToTikTokConnectionWrapperMap (answerPoll st streamerId requesterId now).1
    = streamerIdToTikTokConnectionWrapperMap st.
Proof.
  unfold answerPoll.
  destruct (ensureEventContainer_handles streamerId st) as [Hc Hw].
  destruct (cursorOf (ensureEventContainer streamerId st) requesterId); cbn; auto.
Qed.

Lemma answerPoll_handleInv st streamerId requesterId now :
  handleInv st → handleInv (answerPoll st streamerId requesterId now).1.
Proof.
  destruct (answerPoll_handles st streamerId requesterId now) as [Hc Hw].
  apply handleInv_frame; [exact Hc | intros k; rewrite Hw; reflexivity].
Qed.

Lemma lifecycle_handleInv st streamerId w :
  streamerIdToTikTokConnectionWrapperMap st !! streamerId = Some w →
  ∀ w', handleInv st → handleInv (withWrappers (insert streamerId w') st).
Proof.
  intros E w'. apply handleInv_frame; [reflexivity |].
  intros k. cbn. rewrite lookup_insert. case_decide; subst.
  - rewrite E. split; eauto.
  - reflexivity.
Qed.

(** The handlers on every identifier: what an acquisition and the second
    half of a poll leave alone. *)

Lemma readsInherited_ordinary {A} (m : gmap string A) k :
  inheritedName k = false → readsInherited m k = false.
Proof. unfold readsInherited. intros ->. destruct (m !! k); reflexivity. Qed.

Lemma readsInherited_own {A} (m : gmap string A) k :
  is_Some (m !! k) → readsInherited m k = false.
Proof. unfold readsInherited. intros [x ->]. reflexivity. Qed.

Lemma readsInherited_true {A} (m : gmap string A) k :
  readsInherited m k = true → m !! k = None ∧ inheritedName k = true.
Proof. unfold readsInherited. destruct (m !! k); [discriminate | auto]. Qed.

Lemma getOrCreateAnyName_fst st streamerId options outcome :
  (getOrCreateTiktokConnectionWrapperAnyName st streamerId options outcome).1 = st
  ∨ (getOrCreateTiktokConnectionWrapperAnyName st streamerId options outcome).1
    = (getOrCreateTiktokConnectionWrapper st streamerId options outcome).1.
Proof.
  unfold getOrCreateTiktokConnectionWrapperAnyName.
  destruct (readsInherited _ _); [left; reflexivity |].
  right. destruct (getOrCreateTiktokConnectionWrapper _ _ _ _). reflexivity.
Qed.

Lemma getOrCreateAnyName_handleInv st streamerId options outcome :
  handleInv st →
  handleInv (getOrCreateTiktokConnectionWrapperAnyName st streamerId options
               outcome).1.
Proof.
  intros Hinv.
  destruct (getOrCreateAnyName_fst st streamerId options outcome) as [-> | ->];
    [exact Hinv | apply getOrCreate_handleInv, Hinv].
Qed.

Lemma getOrCreateAnyName_frame st streamerId options outcome :
  let st' := (getOrCreateTiktokConnectionWrapperAnyName st streamerId options
                outcome).1 in
  streamEvents st' = streamEvents st
  ∧ requesterIdToLastRequestTimestamp st' = requesterIdToLastRequestTimestamp st
  ∧ streamerIdToSocketsMap st' = streamerIdToSocketsMap st
  ∧ socketTostreamerIdMap st' = socketTostreamerIdMap st.
Proof.
  cbv zeta.
  destruct (getOrCreateAnyName_fst st streamerId options outcome) as [-> | ->];
    [auto | apply getOrCreate_frame].
Qed.

Lemma answerPollAnyName_handles st streamerId requesterId now :
  constructed (answerPollAnyName st streamerId requesterId now).1 = constructed st
  ∧ streamerIdToTikTokConnectionWrapperMap
      (answerPollAnyName st streamerId requesterId now).1
    = streamerIdToTikTokConnectionWrapperMap st.
Proof.
  unfold answerPollAnyName.
  set (st0 := if readsInherited (streamEvents st) streamerId then st
              else ensureEventContainer streamerId st).
  assert (H0 : constructed st0 = constructed st
               ∧ streamerIdToTikTokConnectionWrapperMap st0
                 = streamerIdToTikTokConnectionWrapperMap st).
  { subst st0. destruct (readsInherited (streamEvents st) streamerId); [auto |].
    apply ensureEventContainer_handles. }
  destruct (readsInherited (requesterIdToLastRequestTimestamp st0) requesterId).
  - destruct (streamEvents st0 !! streamerId); exact H0.
  - destruct (cursorOf st0 requesterId); [| exact H0].
    destruct (streamEvents st0 !! streamerId); exact H0.
Qed.

Lemma answerPollAnyName_sockets st streamerId requesterId now :
  streamerIdToSocketsMap (answerPollAnyName st streamerId requesterId now).1
  = streamerIdToSocketsMap st
  ∧ socketTostreamerIdMap (answerPollAnyName st streamerId requesterId now).1
    = socketTostreamerIdMap st.
Proof.
  unfold answerPollAnyName.
  set (st0 := if readsInherited (streamEvents st) streamerId then st
              else ensureEventContainer streamerId st).
  assert (H0 : streamerIdToSocketsMap st0 = streamerIdToSocketsMap st
               ∧ socketTostreamerIdMap st0 = socketTostreamerIdMap st).
  { subst st0. destruct (readsInherited (streamEvents st) streamerId); [auto |].
    unfold ensureEventContainer. destruct (streamEvents st !! streamerId); auto. }
  destruct (readsInherited (requesterIdToLastRequestTimestamp st0) requesterId).
  - destruct (streamEvents st0 !! streamerId); exact H0.
  - destruct (cursorOf st0 requesterId); [| exact H0].
    destruct (streamEvents st0 !! streamerId); exact H0.
Qed.

(** The state in which a poll hands over to its second half, and the
    state it ends in, in terms of the acquisition. *)
Lemma getEventsAnyName_shape st streamerId requesterId now outcome :
  (getEventsAnyName st streamerId requesterId now outcome).1 = st
  ∨ (∃ sid,
       presentParam streamerId = Some sid
       ∧ (getEventsAnyName st streamerId requesterId now outcome).1
         = (getOrCreateTiktokConnectionWrapperAnyName st sid pollOptions outcome).1)
  ∨ (∃ sid rid,
       presentParam streamerId = Some sid
       ∧ presentParam requesterId = Some rid
       ∧ getEventsAnyName st streamerId requesterId now outcome
         = answerPollAnyName
             (getOrCreateTiktokConnectionWrapperAnyName st sid pollOptions outcome).1
             sid rid now).
Proof.
  unfold getEventsAnyName.
  destruct (presentParam streamerId) as [sid|]; [| left; reflexivity].
  destruct (presentParam requesterId) as [rid|]; [| left; reflexivity].
  destruct (getOrCreateTiktokConnectionWrapperAnyName st sid pollOptions outcome)
    as [st1 [[w|errStr]|]] eqn:E; cbn.
  - right; right. exists sid, rid. rewrite E. repeat split; reflexivity.
  - destruct (truthyString errStr).
    + right; left. exists sid. rewrite E. repeat split; reflexivity.
    + right; right. exists sid, rid. rewrite E. repeat split; reflexivity.
  - right; right. exists sid, rid. rewrite E. repeat split; reflexivity.
Qed.

(** The state a subscription leaves is the state of its acquisition,
    possibly with the socket entered and recorded. *)
Lemma setStreamerIdAnyName_shape env st socket streamerId options blocked outcome :
  let r := setStreamerIdAnyName env st socket streamerId options blocked outcome in
  ∃ st1 st2,
    (st1 = st ∨ (streamerIdToSocketsMap st !! streamerId = None
                 ∧ st1 = withSockets (insert streamerId []) st))
    ∧ (st2 = st1
       ∨ st2 = (getOrCreateTiktokConnectionWrapperAnyName st1 streamerId
                  (sanitizeOptions env options) outcome).1)
    ∧ (r.1 = st2
       ∨ (is_Some (streamerIdToSocketsMap st1 !! streamerId)
          ∧ r.1 = withSocketStreamer (insert (socketKey socket) streamerId)
                    (withSockets
                       (alter (λ socketList, socketList ++ [socket]) streamerId)
                       st2))).
Proof.
  cbv zeta. unfold setStreamerIdAnyName.
  destruct (truthyProp (ENABLE_RATE_LIMIT env) && blocked).
  { exists st, st. auto. }
  destruct (readsInherited (streamerIdToSocketsMap st) streamerId).
  - exists st. eexists. split; [left; reflexivity |]. split; [right; reflexivity |].
    left.
    destruct (getOrCreateTiktokConnectionWrapperAnyName st streamerId
                (sanitizeOptions env options) outcome) as [st2 [[w|e]|]]; reflexivity.
  - destruct (streamerIdToSocketsMap st !! streamerId) as [l|] eqn:E.
    + exists st. eexists. split; [left; reflexivity |]. split; [right; reflexivity |].
      destruct (getOrCreateTiktokConnectionWrapperAnyName st streamerId
                  (sanitizeOptions env options) outcome) as [st2 [[w|e]|]]; cbn;
        first [left; reflexivity | right; split; [rewrite E; eauto | reflexivity]].
    + eexists. eexists. split; [right; split; reflexivity |].
      split; [right; reflexivity |].
      destruct (getOrCreateTiktokConnectionWrapperAnyName _ streamerId
                  (sanitizeOptions env options) outcome) as [st2 [[w|e]|]]; cbn;
        first [left; reflexivity
              | right; split; [rewrite lookup_insert_eq; eauto | reflexivity]].
Qed.

Lemma step_handleInv env st now a :
  handleInv st → handleInv (step env st now a).1.
Proof.
  intros Hinv. destruct a; cbn.
  - destruct (setStreamerIdAnyName_shape env st socket streamerId options blocked
                outcome) as (st1 & st2 & H1 & H2 & H3).
    assert (Hi1 : handleInv st1).
    { destruct H1 as [-> | [_ ->]]; [exact Hinv |].
      revert Hinv. apply handleInv_frame; [reflexivity | intros k; reflexivity]. }
    assert (Hi2 : handleInv st2).
    { destruct H2 as [-> | ->]; [exact Hi1 | apply getOrCreateAnyName_handleInv, Hi1]. }
    destruct H3 as [-> | [_ ->]]; [exact Hi2 |].
    revert Hi2. apply handleInv_frame; [reflexivity | intros k; reflexivity].
  - unfold onSocketDisconnect.
    destruct (socketTostreamerIdMap st !! socketKey socket); [| exact Hinv].
    destruct (truthyString s); [| exact Hinv].
    revert Hinv. apply handleInv_frame; [reflexivity | intros k; reflexivity].
  - destruct (getEventsAnyName_shape st streamerId requesterId now outcome)
      as [H | [(sid & _ & H) | (sid & rid & _ & _ & H)]].
    + destruct (getEventsAnyName st streamerId requesterId now outcome).
      cbn in *. subst. exact Hinv.
    + destruct (getEventsAnyName st streamerId requesterId now outcome).
      cbn in *. subst. apply getOrCreateAnyName_handleInv, Hinv.
    + rewrite H.
      match goal with
      | |- context [answerPollAnyName ?s ?i ?r ?n] =>
          destruct (answerPollAnyName_handles s i r n) as [Hc Hw];
          destruct (answerPollAnyName s i r n) as [st2 resp]
      end.
      cbn in *.
      pose proof (getOrCreateAnyName_handleInv st sid pollOptions outcome Hinv) as Hi.
      revert Hi. apply handleInv_frame; [exact Hc | intros k; rewrite Hw; reflexivity].
  - destruct (streamerIdToTikTokConnectionWrapperMap st !! streamerId); [| exact Hinv].
    case_decide; [| exact Hinv]. cbn.
    destruct (ensureEventContainer_handles streamerId st) as [Hc Hw].
    revert Hinv. apply handleInv_frame; [exact Hc | intros k; cbn; rewrite Hw; reflexivity].
  - unfold onConnected.
    destruct (streamerIdToTikTokConnectionWrapperMap st !! streamerId) as [w|] eqn:E;
      [| exact Hinv].
    destruct (onceConnected w); [| exact Hinv].
    cbn. eapply lifecycle_handleInv; eauto.
  - unfold onDisconnected.
    destruct (streamerIdToTikTokConnectionWrapperMap st !! streamerId) as [w|] eqn:E;
      [| exact Hinv].
    destruct (onceDisconnected w); [| exact Hinv].
    cbn. eapply lifecycle_handleInv; eauto.
  - exact Hinv.
Qed.

Lemma run_handleInv env trace : ∀ st, handleInv st → handleInv (run env st trace).
Proof.
  induction trace as [| [now a] rest IH]; intros st Hinv; [exact Hinv |].
  cbn. apply IH, step_handleInv, Hinv.
Qed.

Lemma initialState_handleInv : handleInv initialState.
Proof. intros k. reflexivity. Qed.


(** C1. At the streamer identifier 'constructor' no acquisition
    constructs or caches a handle: line 106 finds the member that
    [Object.prototype] provides, takes it for a cached handle and
    returns it, on the first call and on every later one. *)
Theorem inherited_streamer_name_is_taken_for_a_handle :
  let first :=
    getOrCreateTiktokConnectionWrapperAnyName initialState "constructor"
      pollOptions ConnectStarted in
  let st := run noEnv initialState
              [(1, GetEvents (Some "constructor") (Some "r") ConnectStarted);
               (2, GetEvents (Some "constructor") (Some "q") ConnectStarted)] in
  first = (initialState, InheritedMember)
  ∧ streamerIdToTikTokConnectionWrapperMap st !! "constructor" = None
  ∧ constructed st = [].
Proof. vm_compute. repeat split; reflexivity. Qed.

Lemma getOrCreateAnyName_ordinary st streamerId options outcome :
  inheritedName streamerId = false →
  getOrCreateTiktokConnectionWrapperAnyName st streamerId options outcome
  = ((getOrCreateTiktokConnectionWrapper st streamerId options outcome).1,
     Ordinary (getOrCreateTiktokConnectionWrapper st streamerId options outcome).2).
Proof.
  intros Hord. unfold getOrCreateTiktokConnectionWrapperAnyName.
  rewrite readsInherited_ordinary by assumption.
  destruct (getOrCreateTiktokConnectionWrapper st streamerId options outcome).
  reflexivity.
Qed.

(** An acquisition caches a handle only under a name that
    [Object.prototype] does not provide. *)
Lemma getOrCreateAnyName_noInherited st streamerId options outcome :
  noInheritedHandle st →
  noInheritedHandle
    (getOrCreateTiktokConnectionWrapperAnyName st streamerId options outcome).1.
Proof.
  intros Hinv. unfold getOrCreateTiktokConnectionWrapperAnyName.
  destruct (readsInherited _ streamerId) eqn:Er; [exact Hinv |].
  unfold getOrCreateTiktokConnectionWrapper.
  destruct (streamerIdToTikTokConnectionWrapperMap st !! streamerId) as [w|] eqn:E;
    [exact Hinv |].
  destruct outcome; [exact Hinv |].
  intros k Hk. cbn. unfold readsInherited in Er. rewrite E in Er.
  rewrite lookup_insert_ne by (intros ->; congruence). apply Hinv, Hk.
Qed.

Lemma noInheritedHandle_frame st st' :
  streamerIdToTikTokConnectionWrapperMap st' = streamerIdToTikTokConnectionWrapperMap st →
  noInheritedHandle st → noInheritedHandle st'.
Proof. unfold noInheritedHandle. intros ->. trivial. Qed.

Lemma step_noInherited env st now a :
  noInheritedHandle st → noInheritedHandle (step env st now a).1.
Proof.
  intros Hinv. destruct a; cbn.
  - destruct (setStreamerIdAnyName_shape env st socket streamerId options blocked
                outcome) as (st1 & st2 & H1 & H2 & H3).
    assert (Hi1 : noInheritedHandle st1).
    { destruct H1 as [-> | [_ ->]]; exact Hinv. }
    assert (Hi2 : noInheritedHandle st2).
    { destruct H2 as [-> | ->]; [exact Hi1 | apply getOrCreateAnyName_noInherited, Hi1]. }
    destruct H3 as [-> | [_ ->]]; exact Hi2.
  - unfold onSocketDisconnect.
    destruct (socketTostreamerIdMap st !! socketKey socket); [| exact Hinv].
    destruct (truthyString s); exact Hinv.
  - destruct (getEventsAnyName_shape st streamerId requesterId now outcome)
      as [H | [(sid & _ & H) | (sid & rid & _ & _ & H)]].
    + destruct (getEventsAnyName st streamerId requesterId now outcome).
      cbn in *. subst. exact Hinv.
    + destruct (getEventsAnyName st streamerId requesterId now outcome).
      cbn in *. subst. apply getOrCreateAnyName_noInherited, Hinv.
    + rewrite H.
      match goal with
      | |- context [answerPollAnyName ?s ?i ?r ?n] =>
          destruct (answerPollAnyName_handles s i r n) as [_ Hw];
          destruct (answerPollAnyName s i r n) as [st2 resp]
      end.
      cbn in *.
      pose proof (getOrCreateAnyName_noInherited st sid pollOptions outcome Hinv) as Hi.
      revert Hi. apply noInheritedHandle_frame, Hw.
  - destruct (streamerIdToTikTokConnectionWrapperMap st !! streamerId); [| exact Hinv].
    case_decide; [| exact Hinv]. cbn.
    destruct (ensureEventContainer_handles streamerId st) as [_ Hw].
    revert Hinv. apply noInheritedHandle_frame. cbn. exact Hw.
  - unfold onConnected.
    destruct (streamerIdToTikTokConnectionWrapperMap st !! streamerId) as [w|] eqn:E;
      [| exact Hinv].
    destruct (onceConnected w); [| exact Hinv].
    intros k Hk. cbn. rewrite lookup_insert_ne; [apply Hinv, Hk |].
    intros ->. rewrite (Hinv k Hk) in E. discriminate.
  - unfold onDisconnected.
    destruct (streamerIdToTikTokConnectionWrapperMap st !! streamerId) as [w|] eqn:E;
      [| exact Hinv].
    destruct (onceDisconnected w); [| exact Hinv].
    intros k Hk. cbn. rewrite lookup_insert_ne; [apply Hinv, Hk |].
    intros ->. rewrite (Hinv k Hk) in E. discriminate.
  - exact Hinv.
Qed.

Lemma run_noInherited env trace :
  ∀ st, noInheritedHandle st → noInheritedHandle (run env st trace).
Proof.
  induction trace as [| [now a] rest IH]; intros st Hinv; [exact Hinv |].
  cbn. apply IH, step_noInherited, Hinv.
Qed.
(** ** The pull endpoint: what a poll returns and what it leaves *)

Lemma bufferOf_ensure streamerId st k :
  bufferOf (ensureEventContainer streamerId st) k = bufferOf st k.
Proof.
  unfold ensureEventContainer, bufferOf.
  destruct (streamEvents st !! streamerId) eqn:E; [reflexivity |].
  cbn. rewrite lookup_insert. case_decide; subst; [rewrite E |]; reflexivity.
Qed.

Lemma cursors_ensure streamerId st :
  requesterIdToLastRequestTimestamp (ensureEventContainer streamerId st)
  = requesterIdToLastRequestTimestamp st.
Proof.
  unfold ensureEventContainer. destruct (streamEvents st !! streamerId); reflexivity.
Qed.

Lemma cursorOf_ensure streamerId st requesterId :
  cursorOf (ensureEventContainer streamerId st) requesterId = cursorOf st requesterId.
Proof. unfold cursorOf. rewrite cursors_ensure. reflexivity. Qed.

Lemma answerPoll_registered st streamerId requesterId now lastRequest :
  cursorOf st requesterId = Some lastRequest →
  let r := answerPoll st streamerId requesterId now in
  r.2 = Json (map publicEvent (newerThan lastRequest (bufferOf st streamerId))) None
  ∧ requesterIdToLastRequestTimestamp r.1
    = <[requesterId := now]> (requesterIdToLastRequestTimestamp st)
  ∧ bufferOf r.1 streamerId
    = newerThan (now - DELETE_EVENTS_AGE) (bufferOf st streamerId)
  ∧ ∀ k, k ≠ streamerId → bufferOf r.1 k = bufferOf st k.
Proof.
  intros Hc. unfold answerPoll. rewrite cursorOf_ensure, Hc. cbn.
  rewrite !bufferOf_ensure, cursors_ensure.
  repeat split.
  - unfold bufferOf at 1. cbn. rewrite lookup_insert_eq. reflexivity.
  - intros k Hk. unfold bufferOf at 1. cbn. rewrite lookup_insert_ne by congruence.
    apply bufferOf_ensure.
Qed.

Lemma answerPoll_fresh st streamerId requesterId now :
  cursorOf st requesterId = None →
  let r := answerPoll st streamerId requesterId now in
  r.2 = Json [] (Some registeredMessage)
  ∧ requesterIdToLastRequestTimestamp r.1
    = <[requesterId := now]> (requesterIdToLastRequestTimestamp st)
  ∧ ∀ k, bufferOf r.1 k = bufferOf st k.
Proof.
  intros Hc. unfold answerPoll. rewrite cursorOf_ensure, Hc. cbn.
  rewrite cursors_ensure. repeat split.
  intros k. apply (bufferOf_ensure streamerId st k).
Qed.

Lemma presentParam_Some s : truthyString s = true → presentParam (Some s) = Some s.
Proof. intros H. cbn. rewrite H. reflexivity. Qed.

(** A well-formed request whose upstream can be acquired is answered from
    the buffer and the cursor table as they were when it arrived. *)
Lemma getEvents_proceeds st streamerId requesterId now outcome :
  truthyString streamerId = true →
  truthyString requesterId = true →
  acquirable st streamerId outcome →
  ∃ st1,
    getEvents st (Some streamerId) (Some requesterId) now outcome
      = answerPoll st1 streamerId requesterId now
    ∧ streamEvents st1 = streamEvents st
    ∧ requesterIdToLastRequestTimestamp st1 = requesterIdToLastRequestTimestamp st.
Proof.
  intros Hs Hr Hacq. unfold getEvents. rewrite !presentParam_Some by assumption.
  pose proof (getOrCreate_frame st streamerId pollOptions outcome) as (He & Hc & _).
  unfold getOrCreateTiktokConnectionWrapper in *.
  destruct (streamerIdToTikTokConnectionWrapperMap st !! streamerId) as [w|] eqn:E.
  - exists st. auto.
  - destruct Hacq as [[? ?] | ->]; [congruence |].
    eexists. split; [reflexivity |]. split; assumption.
Qed.

Lemma bufferOf_events st st' k :
  streamEvents st' = streamEvents st → bufferOf st' k = bufferOf st k.
Proof. unfold bufferOf. intros ->. reflexivity. Qed.

Lemma cursorOf_cursors st st' k :
  requesterIdToLastRequestTimestamp st' = requesterIdToLastRequestTimestamp st →
  cursorOf st' k = cursorOf st k.
Proof. unfold cursorOf. intros ->. reflexivity. Qed.

Lemma newerThan_spec since events e :
  e ∈ newerThan since events ↔ e ∈ events ∧ since < timestamp e.
Proof.
  unfold newerThan. rewrite !list_elem_of_In, List.filter_In.
  destruct (Z.gtb_spec (timestamp e) since); intuition (try lia; try discriminate).
Qed.

Lemma streamEvents_ensure streamerId st :
  streamEvents (ensureEventContainer streamerId st) !! streamerId
  = Some (bufferOf st streamerId).
Proof.
  unfold ensureEventContainer, bufferOf.
  destruct (streamEvents st !! streamerId) eqn:E; cbn.
  - rewrite E. reflexivity.
  - apply lookup_insert_eq.
Qed.

(** On an identifier that [Object.prototype] does not provide, and for a
    requester whose cursor read is not an inherited member, the handlers
    on every identifier are the handlers. *)
Lemma answerPollAnyName_ordinary st streamerId requesterId now :
  inheritedName streamerId = false →
  readsInherited (requesterIdToLastRequestTimestamp st) requesterId = false →
  answerPollAnyName st streamerId requesterId now
  = answerPoll st streamerId requesterId now.
Proof.
  intros Hs Hr. unfold answerPollAnyName, answerPoll.
  rewrite (readsInherited_ordinary (streamEvents st) streamerId Hs).
  rewrite cursors_ensure, Hr.
  destruct (cursorOf (ensureEventContainer streamerId st) requesterId);
    [| reflexivity].
  rewrite streamEvents_ensure, !bufferOf_ensure. reflexivity.
Qed.

Lemma getEventsAnyName_ordinary st streamerId requesterId now outcome :
  (∀ sid, presentParam streamerId = Some sid → inheritedName sid = false) →
  (∀ rid, presentParam requesterId = Some rid →
          readsInherited (requesterIdToLastRequestTimestamp st) rid = false) →
  getEventsAnyName st streamerId requesterId now outcome
  = getEvents st streamerId requesterId now outcome.
Proof.
  intros Hs Hr. unfold getEventsAnyName, getEvents.
  destruct (presentParam streamerId) as [sid|]; [| reflexivity].
  destruct (presentParam requesterId) as [rid|]; [| reflexivity].
  rewrite (getOrCreateAnyName_ordinary st sid pollOptions outcome (Hs sid eq_refl)).
  pose proof (getOrCreate_frame st sid pollOptions outcome) as (_ & Hc & _).
  destruct (getOrCreateTiktokConnectionWrapper st sid pollOptions outcome)
    as [st1 [w|errStr]]; cbn in *.
  - apply answerPollAnyName_ordinary; [apply Hs; reflexivity |].
    rewrite Hc. apply Hr. reflexivity.
  - destruct (truthyString errStr); [reflexivity |].
    apply answerPollAnyName_ordinary; [apply Hs; reflexivity |].
    rewrite Hc. apply Hr. reflexivity.
Qed.

Lemma cursorOf_own st requesterId c :
  cursorOf st requesterId = Some c →
  readsInherited (requesterIdToLastRequestTimestamp st) requesterId = false.
Proof.
  unfold cursorOf, readsInherited.
  destruct (requesterIdToLastRequestTimestamp st !! requesterId);
    [reflexivity | discriminate].
Qed.

Lemma getEventsAnyName_registered st streamerId requesterId now outcome c :
  truthyString streamerId = true →
  truthyString requesterId = true →
  inheritedName streamerId = false →
  cursorOf st requesterId = Some c →
  getEventsAnyName st (Some streamerId) (Some requesterId) now outcome
  = getEvents st (Some streamerId) (Some requesterId) now outcome.
Proof.
  intros Hs Hr Hord Hc. apply getEventsAnyName_ordinary.
  - intros sid. rewrite presentParam_Some by assumption. intros [= <-]. exact Hord.
  - intros rid. rewrite presentParam_Some by assumption. intros [= <-].
    apply (cursorOf_own st requesterId c Hc).
Qed.

(** The poll below comes more than 30 minutes after the only buffered
    event, and still returns it: the result is computed (line 241) before
    the sweep (line 245). *)
Lemma poll_returns_expired_event :
  let st := run noEnv initialState
              [(1000, GetEvents (Some "s") (Some "r") ConnectStarted);
               (2000, UpstreamEvent "s" "chat" sampleChat)] in
  let now := 2000 + DELETE_EVENTS_AGE + 1 in
  let e := storedEvent "chat" 2000 sampleChat in
  bufferOf st "s" = [e]
  ∧ timestamp e < now - DELETE_EVENTS_AGE
  ∧ (getEventsAnyName st (Some "s") (Some "r") now ConnectStarted).2
    = Json [publicEvent e] None.
Proof. vm_compute. repeat split; reflexivity. Qed.

(** C3, amended. A poll of a registered requester that reaches the
    buffer (well-formed, for a streamer identifier that
    [Object.prototype] does not provide and whose upstream can be
    acquired) computes its result from the buffer as it finds it: it
    returns, in buffer order, the events newer than the requester's
    cursor, whatever their age.  Only then does it remove from the polled
    streamer's buffer the events that are not newer than the current time
    minus 30 minutes, so that after the poll every event left in that
    buffer is inside the retention window. *)
Theorem poll_answers_then_sweeps :
  ∀ st streamerId requesterId now outcome lastRequest,
    truthyString streamerId = true →
    truthyString requesterId = true →
    inheritedName streamerId = false →
    acquirable st streamerId outcome →
    cursorOf st requesterId = Some lastRequest →
    let r := getEventsAnyName st (Some streamerId) (Some requesterId) now outcome in
    r.2 = Json (map publicEvent (newerThan lastRequest (bufferOf st streamerId))) None
    ∧ bufferOf r.1 streamerId
      = newerThan (now - DELETE_EVENTS_AGE) (bufferOf st streamerId)
    ∧ ∀ e, e ∈ bufferOf r.1 streamerId → now - DELETE_EVENTS_AGE < timestamp e.
Proof.
  intros st streamerId requesterId now outcome lastRequest Hs Hr Hord Hacq Hc r.
  subst r.
  rewrite (getEventsAnyName_registered st streamerId requesterId now outcome
             lastRequest Hs Hr Hord Hc).
  destruct (getEvents_proceeds st streamerId requesterId now outcome Hs Hr Hacq)
    as (st1 & Heq & He & Hcur).
  rewrite Heq.
  rewrite <- (cursorOf_cursors st st1 requesterId Hcur) in Hc.
  destruct (answerPoll_registered st1 streamerId requesterId now lastRequest Hc)
    as (Hresp & _ & Hbuf & _).
  rewrite (bufferOf_events st st1 streamerId He) in *.
  split; [exact Hresp |]. split; [exact Hbuf |].
  intros e. rewrite Hbuf, newerThan_spec. tauto.
Qed.

Lemma poll_answers_then_sweeps_witness :
  let st := run noEnv initialState
              [(1000, GetEvents (Some "s") (Some "r") ConnectStarted);
               (2000, UpstreamEvent "s" "chat" sampleChat)] in
  let r := getEventsAnyName st (Some "s") (Some "r") 2500 ConnectStarted in
  r.2 = Json (map publicEvent (newerThan 1000 (bufferOf st "s"))) None
  ∧ bufferOf r.1 "s" = newerThan (2500 - DELETE_EVENTS_AGE) (bufferOf st "s")
  ∧ ∀ e, e ∈ bufferOf r.1 "s" → 2500 - DELETE_EVENTS_AGE < timestamp e.
Proof.
  apply (poll_answers_then_sweeps _ "s" "r" 2500 ConnectStarted 1000).
  - reflexivity.
  - reflexivity.
  - reflexivity.
  - right. reflexivity.
  - reflexivity.
Defined.
(** ** Poll cursors *)

(** The three ways a request can end. *)
Lemma getEvents_cases st streamerId requesterId now outcome :
  (∃ body, getEvents st streamerId requesterId now outcome = (st, Status400 body))
  ∨ (∃ errStr, getEvents st streamerId requesterId now outcome
               = (st, Json [] (Some errStr)))
  ∨ (∃ sid rid st1,
       presentParam streamerId = Some sid
       ∧ presentParam requesterId = Some rid
       ∧ getEvents st streamerId requesterId now outcome = answerPoll st1 sid rid now
       ∧ streamEvents st1 = streamEvents st
       ∧ requesterIdToLastRequestTimestamp st1 = requesterIdToLastRequestTimestamp st
       ∧ streamerIdToSocketsMap st1 = streamerIdToSocketsMap st
       ∧ socketTostreamerIdMap st1 = socketTostreamerIdMap st).
Proof.
  unfold getEvents.
  destruct (presentParam streamerId) as [sid|]; [| left; eauto].
  destruct (presentParam requesterId) as [rid|]; [| left; eauto].
  pose proof (getOrCreate_frame st sid pollOptions outcome) as (He & Hc & Hs & Hm).
  unfold getOrCreateTiktokConnectionWrapper in *.
  destruct (streamerIdToTikTokConnectionWrapperMap st !! sid) as [w|].
  { right; right. exists sid, rid, st. auto 10. }
  destruct outcome as [errStr|].
  - destruct (truthyString errStr); [right; left; eauto |].
    right; right. exists sid, rid, st. auto 10.
  - right; right. eexists sid, rid, _. cbn in *.
    split; [reflexivity |]. split; [reflexivity |]. split; [reflexivity |]. auto.
Qed.

Lemma answerPoll_cursors st streamerId requesterId now :
  requesterIdToLastRequestTimestamp (answerPoll st streamerId requesterId now).1
  = <[requesterId := now]> (requesterIdToLastRequestTimestamp st).
Proof.
  destruct (cursorOf st requesterId) as [c|] eqn:E.
  - apply (answerPoll_registered st streamerId requesterId now c E).
  - apply (answerPoll_fresh st streamerId requesterId now E).
Qed.

Lemma getEvents_cursors st streamerId requesterId now outcome :
  requesterIdToLastRequestTimestamp
    (getEvents st streamerId requesterId now outcome).1
  = requesterIdToLastRequestTimestamp st
  ∨ ∃ rid, requesterIdToLastRequestTimestamp
             (getEvents st streamerId requesterId now outcome).1
           = <[rid := now]> (requesterIdToLastRequestTimestamp st).
Proof.
  destruct (getEvents_cases st streamerId requesterId now outcome)
    as [[body ->] | [[errStr ->] | (sid & rid & st1 & _ & _ & -> & _ & Hc & _)]];
    [left; reflexivity | left; reflexivity |].
  right. exists rid. rewrite answerPoll_cursors, Hc. reflexivity.
Qed.


Lemma assignPrimitive_cases {A} k (v : A) m :
  assignPrimitive k v m = m ∨ assignPrimitive k v m = <[k := v]> m.
Proof.
  unfold assignPrimitive. destruct (m !! k); [right; reflexivity |].
  destruct (String.eqb k "__proto__"); auto.
Qed.

Lemma answerPollAnyName_start st streamerId :
  let st0 := if readsInherited (streamEvents st) streamerId then st
             else ensureEventContainer streamerId st in
  requesterIdToLastRequestTimestamp st0 = requesterIdToLastRequestTimestamp st
  ∧ ∀ k, bufferOf st0 k = bufferOf st k.
Proof.
  cbv zeta. destruct (readsInherited (streamEvents st) streamerId); [auto |].
  split; [apply cursors_ensure | intros k; apply bufferOf_ensure].
Qed.

Lemma answerPollAnyName_cursors st streamerId requesterId now :
  requesterIdToLastRequestTimestamp (answerPollAnyName st streamerId requesterId now).1
  = requesterIdToLastRequestTimestamp st
  ∨ requesterIdToLastRequestTimestamp
      (answerPollAnyName st streamerId requesterId now).1
    = <[requesterId := now]> (requesterIdToLastRequestTimestamp st).
Proof.
  unfold answerPollAnyName.
  destruct (answerPollAnyName_start st streamerId) as [Hc _]. cbv zeta in Hc.
  set (st0 := if readsInherited (streamEvents st) streamerId then st
              else ensureEventContainer streamerId st) in *.
  rewrite <- Hc.
  destruct (readsInherited (requesterIdToLastRequestTimestamp st0) requesterId).
  - destruct (streamEvents st0 !! streamerId); [| left; reflexivity]. cbn.
    apply assignPrimitive_cases.
  - destruct (cursorOf st0 requesterId); [| right; reflexivity].
    destruct (streamEvents st0 !! streamerId); [right | left]; reflexivity.
Qed.

Lemma getEventsAnyName_cursors st streamerId requesterId now outcome :
  requesterIdToLastRequestTimestamp
    (getEventsAnyName st streamerId requesterId now outcome).1
  = requesterIdToLastRequestTimestamp st
  ∨ ∃ rid, requesterIdToLastRequestTimestamp
             (getEventsAnyName st streamerId requesterId now outcome).1
           = <[rid := now]> (requesterIdToLastRequestTimestamp st).
Proof.
  destruct (getEventsAnyName_shape st streamerId requesterId now outcome)
    as [-> | [(sid & _ & ->) | (sid & rid & _ & _ & ->)]].
  - left. reflexivity.
  - left. apply getOrCreateAnyName_frame.
  - pose proof (getOrCreateAnyName_frame st sid pollOptions outcome) as (_ & Hc & _).
    cbv zeta in Hc. rewrite <- Hc.
    match goal with
    | |- context [answerPollAnyName ?s ?i ?r ?n] =>
        destruct (answerPollAnyName_cursors s i r n) as [H | H]
    end; [left; exact H | right; exists rid; exact H].
Qed.

Lemma setStreamerIdAnyName_pull_side env st socket streamerId options blocked outcome :
  streamEvents (setStreamerIdAnyName env st socket streamerId options blocked outcome).1
  = streamEvents st
  ∧ requesterIdToLastRequestTimestamp
      (setStreamerIdAnyName env st socket streamerId options blocked outcome).1
    = requesterIdToLastRequestTimestamp st.
Proof.
  destruct (setStreamerIdAnyName_shape env st socket streamerId options blocked
              outcome) as (st1 & st2 & H1 & H2 & H3).
  assert (E1 : streamEvents st1 = streamEvents st
               ∧ requesterIdToLastRequestTimestamp st1
                 = requesterIdToLastRequestTimestamp st).
  { destruct H1 as [-> | [_ ->]]; auto. }
  assert (E2 : streamEvents st2 = streamEvents st
               ∧ requesterIdToLastRequestTimestamp st2
                 = requesterIdToLastRequestTimestamp st).
  { destruct H2 as [-> | ->]; [exact E1 |].
    pose proof (getOrCreateAnyName_frame st1 streamerId (sanitizeOptions env options)
                  outcome) as (He & Hc & _).
    cbv zeta in He, Hc. rewrite He, Hc. exact E1. }
  destruct H3 as [-> | [_ ->]]; exact E2.
Qed.

Lemma step_cursors env st now a :
  requesterIdToLastRequestTimestamp (step env st now a).1
  = requesterIdToLastRequestTimestamp st
  ∨ ∃ rid, requesterIdToLastRequestTimestamp (step env st now a).1
           = <[rid := now]> (requesterIdToLastRequestTimestamp st).
Proof.
  destruct a; cbn.
  - left. apply setStreamerIdAnyName_pull_side.
  - left. unfold onSocketDisconnect.
    destruct (socketTostreamerIdMap st !! socketKey socket); [| reflexivity].
    destruct (truthyString s); reflexivity.
  - pose proof (getEventsAnyName_cursors st streamerId requesterId now outcome) as H.
    destruct (getEventsAnyName st streamerId requesterId now outcome); exact H.
  - left. destruct (streamerIdToTikTokConnectionWrapperMap st !! streamerId);
      [| reflexivity].
    case_decide; [| reflexivity]. cbn. apply cursors_ensure.
  - left. unfold onConnected.
    destruct (streamerIdToTikTokConnectionWrapperMap st !! streamerId) as [w|];
      [| reflexivity].
    destruct (onceConnected w); reflexivity.
  - left. unfold onDisconnected.
    destruct (streamerIdToTikTokConnectionWrapperMap st !! streamerId) as [w|];
      [| reflexivity].
    destruct (onceDisconnected w); reflexivity.
  - left. reflexivity.
Qed.

Lemma step_cursorAtLeast env st now a requesterId t :
  t ≤ now → cursorAtLeast st requesterId t →
  cursorAtLeast (step env st now a).1 requesterId t.
Proof.
  intros Hnow (c & Hc & Hle). unfold cursorAtLeast.
  destruct (step_cursors env st now a) as [-> | [rid ->]]; [eauto |].
  rewrite lookup_insert. case_decide; eauto.
Qed.

Lemma run_cursorAtLeast env trace requesterId t :
  clockFrom t trace →
  ∀ st, cursorAtLeast st requesterId t →
        cursorAtLeast (run env st trace) requesterId t.
Proof.
  induction 1 as [| [now a] rest Hnow _ IH]; intros st Hc; [exact Hc |].
  cbn. apply IH, step_cursorAtLeast; assumption.
Qed.


(** What a poll returns to a requester that has a cursor of its own:
    nothing, or the events of the polled buffer that are newer than that
    cursor. *)
Lemma answerPollAnyName_selection st streamerId requesterId now c :
  requesterIdToLastRequestTimestamp st !! requesterId = Some c →
  responseEvents (answerPollAnyName st streamerId requesterId now).2 = []
  ∨ responseEvents (answerPollAnyName st streamerId requesterId now).2
    = map publicEvent (newerThan c (bufferOf st streamerId)).
Proof.
  intros Hc. unfold answerPollAnyName.
  destruct (answerPollAnyName_start st streamerId) as [Hcur Hbuf].
  cbv zeta in Hcur, Hbuf.
  set (st0 := if readsInherited (streamEvents st) streamerId then st
              else ensureEventContainer streamerId st) in *.
  rewrite <- Hcur in Hc. rewrite <- (Hbuf streamerId).
  rewrite (readsInherited_own _ requesterId (ex_intro _ c Hc)).
  unfold cursorOf. rewrite Hc.
  destruct (truthyNumber c); [| left; reflexivity].
  unfold bufferOf.
  destruct (streamEvents st0 !! streamerId); [right | left]; reflexivity.
Qed.

Lemma poll_selection st streamerId requesterId now outcome t :
  cursorAtLeast st requesterId t →
  let reply :=
    (getEventsAnyName st (Some streamerId) (Some requesterId) now outcome).2 in
  responseEvents reply = []
  ∨ ∃ c, t ≤ c
         ∧ responseEvents reply = map publicEvent (newerThan c (bufferOf st streamerId)).
Proof.
  intros (c & Hc & Hle). cbv zeta. unfold getEventsAnyName.
  destruct (presentParam (Some streamerId)) as [sid|] eqn:Es; [| left; reflexivity].
  assert (sid = streamerId) as ->.
  { cbn in Es. destruct (truthyString streamerId); congruence. }
  destruct (presentParam (Some requesterId)) as [rid|] eqn:Er; [| left; reflexivity].
  assert (rid = requesterId) as ->.
  { cbn in Er. destruct (truthyString requesterId); congruence. }
  pose proof (getOrCreateAnyName_frame st streamerId pollOptions outcome)
    as (He & Hcur & _).
  cbv zeta in He, Hcur.
  assert (Hsel : ∀ st1,
            streamEvents st1 = streamEvents st →
            requesterIdToLastRequestTimestamp st1
            = requesterIdToLastRequestTimestamp st →
            responseEvents (answerPollAnyName st1 streamerId requesterId now).2 = []
            ∨ ∃ c0, t ≤ c0
                    ∧ responseEvents
                        (answerPollAnyName st1 streamerId requesterId now).2
                      = map publicEvent (newerThan c0 (bufferOf st streamerId))).
  { intros st1 He1 Hc1. rewrite <- (bufferOf_events st st1 streamerId He1).
    rewrite <- Hc1 in Hc.
    destruct (answerPollAnyName_selection st1 streamerId requesterId now c Hc)
      as [H | H]; [left; exact H | right; exists c; auto]. }
  destruct (getOrCreateTiktokConnectionWrapperAnyName st streamerId pollOptions
              outcome) as [st1 [[w|errStr]|]]; cbn in He, Hcur |- *.
  - apply Hsel; assumption.
  - destruct (truthyString errStr); [left; reflexivity | apply Hsel; assumption].
  - apply Hsel; assumption.
Qed.

(** An event whose stamp is not above a cursor is not selected by it. *)
Lemma not_newerThan c events h : timestamp h ≤ c → h ∉ newerThan c events.
Proof. rewrite newerThan_spec. intros Hle [_ Hlt]. lia. Qed.

Lemma timestamp_storedEvent eventType now d :
  timestamp (storedEvent eventType now d) = now.
Proof.
  unfold storedEvent, eventTypeToTransformer.
  repeat match goal with
         | |- context [String.eqb ?a ?b] => destruct (String.eqb a b)
         end; reflexivity.
Qed.

Lemma getEvents_handle_cached st streamerId requesterId now outcome :
  truthyString streamerId = true →
  truthyString requesterId = true →
  acquirable st streamerId outcome →
  is_Some (streamerIdToTikTokConnectionWrapperMap
             (getEvents st (Some streamerId) (Some requesterId) now outcome).1
           !! streamerId).
Proof.
  intros Hs Hr Hacq. unfold getEvents. rewrite !presentParam_Some by assumption.
  unfold getOrCreateTiktokConnectionWrapper.
  destruct (streamerIdToTikTokConnectionWrapperMap st !! streamerId) as [w|] eqn:E.
  - destruct (answerPoll_handles st streamerId requesterId now) as [_ Hw].
    rewrite Hw, E. eauto.
  - destruct Hacq as [[? ?] | ->]; [congruence |].
    match goal with
    | |- context [answerPoll ?s _ _ _] =>
        destruct (answerPoll_handles s streamerId requesterId now) as [_ Hw]
    end.
    rewrite Hw. cbn. rewrite lookup_insert_eq. eauto.
Qed.

(** The two outcomes of a poll that reaches the cursor table. *)
Lemma poll_registered st streamerId requesterId now outcome lastRequest :
  truthyString streamerId = true →
  truthyString requesterId = true →
  acquirable st streamerId outcome →
  cursorOf st requesterId = Some lastRequest →
  let r := getEvents st (Some streamerId) (Some requesterId) now outcome in
  r.2 = Json (map publicEvent (newerThan lastRequest (bufferOf st streamerId))) None
  ∧ requesterIdToLastRequestTimestamp r.1
    = <[requesterId := now]> (requesterIdToLastRequestTimestamp st)
  ∧ bufferOf r.1 streamerId
    = newerThan (now - DELETE_EVENTS_AGE) (bufferOf st streamerId)
  ∧ ∀ k, k ≠ streamerId → bufferOf r.1 k = bufferOf st k.
Proof.
  intros Hs Hr Hacq Hc r.
  destruct (getEvents_proceeds st streamerId requesterId now outcome Hs Hr Hacq)
    as (st1 & Heq & He & Hcur).
  subst r. rewrite Heq.
  rewrite <- (cursorOf_cursors st st1 requesterId Hcur) in Hc.
  destruct (answerPoll_registered st1 streamerId requesterId now lastRequest Hc)
    as (Hresp & Hcur' & Hbuf & Hother).
  rewrite (bufferOf_events st st1 streamerId He) in *.
  rewrite Hcur in Hcur'.
  repeat split; try assumption.
  intros k Hk. rewrite (Hother k Hk). apply bufferOf_events, He.
Qed.

Lemma poll_fresh st streamerId requesterId now outcome :
  truthyString streamerId = true →
  truthyString requesterId = true →
  acquirable st streamerId outcome →
  cursorOf st requesterId = None →
  let r := getEvents st (Some streamerId) (Some requesterId) now outcome in
  r.2 = Json [] (Some registeredMessage)
  ∧ requesterIdToLastRequestTimestamp r.1
    = <[requesterId := now]> (requesterIdToLastRequestTimestamp st)
  ∧ ∀ k, bufferOf r.1 k = bufferOf st k.
Proof.
  intros Hs Hr Hacq Hc r.
  destruct (getEvents_proceeds st streamerId requesterId now outcome Hs Hr Hacq)
    as (st1 & Heq & He & Hcur).
  subst r. rewrite Heq.
  rewrite <- (cursorOf_cursors st st1 requesterId Hcur) in Hc.
  destruct (answerPoll_fresh st1 streamerId requesterId now Hc)
    as (Hresp & Hcur' & Hbuf).
  rewrite Hcur in Hcur'.
  repeat split; try assumption.
  intros k. rewrite (Hbuf k). apply bufferOf_events, He.
Qed.


(** C4. The first poll of the requester identifier 'constructor' is
    answered [{events: []}] without the registration message: line 235
    finds the member that [Object.prototype] provides and takes it for a
    cursor.  The requester identifier '__proto__' never gets a cursor:
    the assignment of line 243 does not create one, and every poll of it
    is answered [{events: []}], also when an event was stored since the
    poll before. *)
Theorem first_poll_of_inherited_requester_name :
  let p := getEventsAnyName initialState (Some "s") (Some "constructor") 1000
             ConnectStarted in
  let q := getEventsAnyName initialState (Some "s") (Some "__proto__") 1000
             ConnectStarted in
  let stE := (step noEnv q.1 1500 (UpstreamEvent "s" "chat" sampleChat)).1 in
  let q2 := getEventsAnyName stE (Some "s") (Some "__proto__") 2000 ConnectStarted in
  p.2 = Json [] None
  ∧ requesterIdToLastRequestTimestamp p.1 !! "constructor" = Some 1000
  ∧ q.2 = Json [] None
  ∧ requesterIdToLastRequestTimestamp q.1 !! "__proto__" = None
  ∧ bufferOf stE "s" = [storedEvent "chat" 1500 sampleChat]
  ∧ q2.2 = Json [] None
  ∧ requesterIdToLastRequestTimestamp q2.1 !! "__proto__" = None.
Proof. vm_compute. repeat split; reflexivity. Qed.

Lemma poll_registered_anyName st streamerId requesterId now outcome lastRequest :
  truthyString streamerId = true →
  truthyString requesterId = true →
  inheritedName streamerId = false →
  acquirable st streamerId outcome →
  cursorOf st requesterId = Some lastRequest →
  let r := getEventsAnyName st (Some streamerId) (Some requesterId) now outcome in
  r.2 = Json (map publicEvent (newerThan lastRequest (bufferOf st streamerId))) None
  ∧ requesterIdToLastRequestTimestamp r.1
    = <[requesterId := now]> (requesterIdToLastRequestTimestamp st)
  ∧ bufferOf r.1 streamerId
    = newerThan (now - DELETE_EVENTS_AGE) (bufferOf st streamerId)
  ∧ (∀ k, k ≠ streamerId → bufferOf r.1 k = bufferOf st k)
  ∧ is_Some (streamerIdToTikTokConnectionWrapperMap r.1 !! streamerId).
Proof.
  intros Hs Hr Hord Hacq Hc. cbv zeta.
  rewrite (getEventsAnyName_registered st streamerId requesterId now outcome
             lastRequest Hs Hr Hord Hc).
  destruct (poll_registered st streamerId requesterId now outcome lastRequest
              Hs Hr Hacq Hc) as (H1 & H2 & H3 & H4).
  repeat split; try assumption.
  apply getEvents_handle_cached; assumption.
Qed.

Lemma presentParam_inv s s' : presentParam (Some s) = Some s' → s' = s.
Proof. cbn. destruct (truthyString s); congruence. Qed.

(** A poll of a registered requester that is answered with events has
    set the requester's cursor to its clock reading. *)
Lemma answerPollAnyName_success st streamerId requesterId now c events :
  cursorOf st requesterId = Some c →
  (answerPollAnyName st streamerId requesterId now).2 = Json events None →
  requesterIdToLastRequestTimestamp (answerPollAnyName st streamerId requesterId now).1
  = <[requesterId := now]> (requesterIdToLastRequestTimestamp st).
Proof.
  intros Hc. unfold answerPollAnyName.
  set (st0 := if readsInherited (streamEvents st) streamerId then st
              else ensureEventContainer streamerId st).
  assert (H0 : requesterIdToLastRequestTimestamp st0
               = requesterIdToLastRequestTimestamp st).
  { subst st0. destruct (readsInherited (streamEvents st) streamerId);
      [reflexivity | apply cursors_ensure]. }
  assert (Hown : is_Some (requesterIdToLastRequestTimestamp st !! requesterId)).
  { unfold cursorOf in Hc.
    destruct (requesterIdToLastRequestTimestamp st !! requesterId); [eauto |].
    discriminate. }
  rewrite H0, (readsInherited_own _ _ Hown).
  assert (Hc0 : cursorOf st0 requesterId = Some c).
  { unfold cursorOf. rewrite H0. exact Hc. }
  rewrite Hc0.
  destruct (streamEvents st0 !! streamerId); cbn; [| discriminate].
  intros _. rewrite H0. reflexivity.
Qed.

Lemma getEventsAnyName_success st streamerId requesterId now outcome c events :
  cursorOf st requesterId = Some c →
  (getEventsAnyName st (Some streamerId) (Some requesterId) now outcome).2
  = Json events None →
  requesterIdToLastRequestTimestamp
    (getEventsAnyName st (Some streamerId) (Some requesterId) now outcome).1
  = <[requesterId := now]> (requesterIdToLastRequestTimestamp st).
Proof.
  intros Hc. unfold getEventsAnyName.
  destruct (presentParam (Some streamerId)) as [sid|] eqn:Es; [| discriminate].
  destruct (presentParam (Some requesterId)) as [rid|] eqn:Er; [| discriminate].
  apply presentParam_inv in Es, Er. subst sid rid.
  pose proof (getOrCreateAnyName_frame st streamerId pollOptions outcome)
    as (_ & Hcur & _).
  destruct (getOrCreateTiktokConnectionWrapperAnyName st streamerId pollOptions
              outcome) as [st1 [[w|errStr]|]]; cbn in Hcur;
    try (destruct (truthyString errStr); [discriminate |]);
    rewrite <- Hcur; apply (answerPollAnyName_success _ _ _ _ c);
    unfold cursorOf; rewrite Hcur; exact Hc.
Qed.

(** C10. The cursor table has one entry per requester, whatever streamer
    is polled.  A poll of a registered requester for streamer A that is
    answered with events sets that entry to the time of the poll; with a
    clock that does not go back, a later poll of the same requester for
    any streamer B, after any further activity, returns nothing or the
    events of B's buffer that are newer than a cursor not below that
    time: no event buffered for B and stamped at or before the time of
    the poll on A is among them. *)
Theorem cursor_shared_across_streamers :
  ∀ env st streamerA streamerB requesterId nowA outcomeA lastRequest eventsA
    between nowB outcomeB,
    cursorOf st requesterId = Some lastRequest →
    (getEventsAnyName st (Some streamerA) (Some requesterId) nowA outcomeA).2
    = Json eventsA None →
    clockFrom nowA between →
    let st1 := (getEventsAnyName st (Some streamerA) (Some requesterId) nowA
                  outcomeA).1 in
    let st2 := run env st1 between in
    let reply := (getEventsAnyName st2 (Some streamerB) (Some requesterId) nowB
                    outcomeB).2 in
    requesterIdToLastRequestTimestamp st1 !! requesterId = Some nowA
    ∧ (responseEvents reply = []
       ∨ ∃ c, nowA ≤ c
              ∧ responseEvents reply
                = map publicEvent (newerThan c (bufferOf st2 streamerB))
              ∧ ∀ h, h ∈ bufferOf st2 streamerB → timestamp h ≤ nowA →
                     h ∉ newerThan c (bufferOf st2 streamerB)).
Proof.
  intros env st streamerA streamerB requesterId nowA outcomeA lastRequest eventsA
    between nowB outcomeB Hc Hok Hclock st1 st2 reply.
  pose proof (getEventsAnyName_success st streamerA requesterId nowA outcomeA
                lastRequest eventsA Hc Hok) as Hcur.
  fold st1 in Hcur.
  assert (Hreg : requesterIdToLastRequestTimestamp st1 !! requesterId = Some nowA).
  { rewrite Hcur. apply lookup_insert_eq. }
  split; [exact Hreg |].
  assert (Hat : cursorAtLeast st2 requesterId nowA).
  { apply run_cursorAtLeast; [exact Hclock |]. exists nowA. split; [exact Hreg | lia]. }
  destruct (poll_selection st2 streamerB requesterId nowB outcomeB nowA Hat)
    as [Hnil | (c & Hle & Hsel)]; [left; exact Hnil |].
  right. exists c. split; [exact Hle |]. split; [exact Hsel |].
  intros h _ Hold. apply not_newerThan. lia.
Qed.

Lemma cursor_shared_across_streamers_witness :
  let st := run noEnv initialState
              [(1000, GetEvents (Some "a") (Some "r") ConnectStarted);
               (1500, GetEvents (Some "b") (Some "q") ConnectStarted);
               (2000, UpstreamEvent "b" "chat" sampleChat)] in
  let st1 := (getEventsAnyName st (Some "a") (Some "r") 3000 ConnectStarted).1 in
  let st2 := run noEnv st1 [(3500, UpstreamEvent "b" "like" sampleChat)] in
  let reply := (getEventsAnyName st2 (Some "b") (Some "r") 4000 ConnectStarted).2 in
  requesterIdToLastRequestTimestamp st1 !! "r" = Some 3000
  ∧ (responseEvents reply = []
     ∨ ∃ c, 3000 ≤ c
            ∧ responseEvents reply = map publicEvent (newerThan c (bufferOf st2 "b"))
            ∧ ∀ h, h ∈ bufferOf st2 "b" → timestamp h ≤ 3000 →
                   h ∉ newerThan c (bufferOf st2 "b")).
Proof.
  apply (cursor_shared_across_streamers noEnv _ "a" "b" "r" 3000 ConnectStarted 1000
           [] [(3500, UpstreamEvent "b" "like" sampleChat)] 4000 ConnectStarted).
  - reflexivity.
  - reflexivity.
  - repeat constructor. cbn. lia.
Defined.

(** The event of streamer "b" stamped 2000 is lost to requester "r" by a
    poll on streamer "a": the poll on "b" that follows returns only the
    event stored after the poll on "a". *)
Example cursor_shared_loses_event :
  let st := run noEnv initialState
              [(1000, GetEvents (Some "a") (Some "r") ConnectStarted);
               (1500, GetEvents (Some "b") (Some "q") ConnectStarted);
               (2000, UpstreamEvent "b" "chat" sampleChat);
               (3000, GetEvents (Some "a") (Some "r") ConnectStarted);
               (3500, UpstreamEvent "b" "like" sampleChat)] in
  bufferOf st "b"
  = [storedEvent "chat" 2000 sampleChat; storedEvent "like" 3500 sampleChat]
  ∧ (getEventsAnyName st (Some "b") (Some "r") 4000 ConnectStarted).2
    = Json [publicEvent (storedEvent "like" 3500 sampleChat)] None.
Proof. vm_compute. split; reflexivity. Qed.
(** ** Consecutive polls *)

Lemma newerThan_none since events :
  (∀ e, e ∈ events → timestamp e ≤ since) → newerThan since events = [].
Proof.
  intros Hall. destruct (newerThan since events) as [| e l] eqn:E; [reflexivity |].
  assert (He : e ∈ newerThan since events) by (rewrite E; left).
  apply newerThan_spec in He as [Hin Hts]. specialize (Hall e Hin). lia.
Qed.

Lemma newerThan_app since l1 l2 :
  newerThan since (l1 ++ l2) = newerThan since l1 ++ newerThan since l2.
Proof. apply List.filter_app. Qed.

Lemma newerThan_elem since events e : e ∈ newerThan since events → e ∈ events.
Proof. rewrite newerThan_spec. tauto. Qed.

(** A requester whose cursor is not below the stamps of a buffer gets
    nothing from it. *)
Lemma poll_nothing_new st streamerId requesterId now outcome t :
  cursorAtLeast st requesterId t →
  (∀ h, h ∈ bufferOf st streamerId → timestamp h ≤ t) →
  responseEvents
    (getEventsAnyName st (Some streamerId) (Some requesterId) now outcome).2 = [].
Proof.
  intros Hat Hold.
  destruct (poll_selection st streamerId requesterId now outcome t Hat)
    as [H | (c & Hle & ->)]; [exact H |].
  rewrite newerThan_none; [reflexivity |].
  intros e He. specialize (Hold e He). lia.
Qed.

(** What the listener of a cached handle does with a signal of a stored
    kind. *)
Lemma step_upstream_event env st now streamerId eventType d :
  is_Some (streamerIdToTikTokConnectionWrapperMap st !! streamerId) →
  eventType ∈ eventTypesToStore →
  let r := step env st now (UpstreamEvent streamerId eventType d) in
  bufferOf r.1 streamerId = bufferOf st streamerId ++ [storedEvent eventType now d]
  ∧ (∀ k, k ≠ streamerId → bufferOf r.1 k = bufferOf st k)
  ∧ requesterIdToLastRequestTimestamp r.1 = requesterIdToLastRequestTimestamp st
  ∧ streamerIdToTikTokConnectionWrapperMap r.1 = streamerIdToTikTokConnectionWrapperMap st
  ∧ streamerIdToSocketsMap r.1 = streamerIdToSocketsMap st
  ∧ emitted r.2
    = map (λ socket, mkEmit socket eventType (PData (RawPayload d)))
          (default [] (streamerIdToSocketsMap st !! streamerId))
  ∧ replied r.2 = None.
Proof.
  intros [w Hw] Hkind. cbn. rewrite Hw.
  destruct (decide (eventType ∈ eventTypesToStore)) as [_ | Hn]; [| contradiction].
  cbn. unfold ensureEventContainer, bufferOf, broadcast.
  destruct (streamEvents st !! streamerId) as [events|] eqn:E; cbn.
  - rewrite lookup_alter_eq, E. cbn. repeat split.
    + intros k Hk. rewrite lookup_alter_ne by congruence. reflexivity.
    + destruct (streamerIdToSocketsMap st !! streamerId); reflexivity.
  - rewrite lookup_alter_eq, lookup_insert_eq. cbn. repeat split.
    + intros k Hk. rewrite lookup_alter_ne, lookup_insert_ne by congruence.
      reflexivity.
    + destruct (streamerIdToSocketsMap st !! streamerId); reflexivity.
Qed.

(** Requester "r" polls at 1000, an event is stored in that same
    millisecond after the poll, and neither of the next two polls
    returns it. *)
Lemma same_millisecond_event_is_never_returned :
  let st := run noEnv initialState
              [(500, GetEvents (Some "s") (Some "r") ConnectStarted)] in
  let p1 := getEventsAnyName st (Some "s") (Some "r") 1000 ConnectStarted in
  let stE := (step noEnv p1.1 1000 (UpstreamEvent "s" "chat" sampleChat)).1 in
  let p2 := getEventsAnyName stE (Some "s") (Some "r") 1001 ConnectStarted in
  let p3 := getEventsAnyName p2.1 (Some "s") (Some "r") 1002 ConnectStarted in
  bufferOf p1.1 "s" = []
  ∧ bufferOf stE "s" = [storedEvent "chat" 1000 sampleChat]
  ∧ p1.2 = Json [] None
  ∧ p2.2 = Json [] None
  ∧ p3.2 = Json [] None.
Proof. vm_compute. repeat split; reflexivity. Qed.

(** C5, amended. A well-formed poll of a registered requester, on a
    streamer identifier that [Object.prototype] does not provide and
    whose upstream can be acquired, returns the buffered events newer
    than the cursor and sets the cursor to the current time, whatever
    the size of the result.  With a clock that does not go back: if no
    buffered event is newer than the cursor the poll returns nothing,
    and a poll that follows with no event stored in between returns
    nothing; an event stored between two consecutive polls for its
    streamer is returned by the second poll if and only if its stamp is
    strictly greater than the clock reading of the first, and it is
    among the events of no poll of the requester after the second, for
    any streamer and after any further activity. *)
Theorem poll_advances_cursor_past_returned_events :
  ∀ env st streamerId requesterId t1 outcome1 lastRequest,
    truthyString streamerId = true →
    truthyString requesterId = true →
    inheritedName streamerId = false →
    acquirable st streamerId outcome1 →
    cursorOf st requesterId = Some lastRequest →
    (∀ h, h ∈ bufferOf st streamerId → timestamp h ≤ t1) →
    let p1 := getEventsAnyName st (Some streamerId) (Some requesterId) t1 outcome1 in
    requesterIdToLastRequestTimestamp p1.1 !! requesterId = Some t1
    ∧ p1.2 = Json (map publicEvent (newerThan lastRequest (bufferOf st streamerId)))
                  None
    ∧ ((∀ h, h ∈ bufferOf st streamerId → timestamp h ≤ lastRequest) →
       responseEvents p1.2 = [])
    ∧ (∀ t2 outcome2,
         responseEvents
           (getEventsAnyName p1.1 (Some streamerId) (Some requesterId) t2
              outcome2).2 = [])
    ∧ ∀ eventType d te t2 outcome2,
        eventType ∈ eventTypesToStore →
        t1 ≠ 0 → t1 ≤ t2 → te ≤ t2 →
        let stE := (step env p1.1 te (UpstreamEvent streamerId eventType d)).1 in
        let p2 := getEventsAnyName stE (Some streamerId) (Some requesterId) t2
                    outcome2 in
        responseEvents p2.2
        = (if te >? t1 then [publicEvent (storedEvent eventType te d)] else [])
        ∧ ∀ later streamerId' t3 outcome3,
            clockFrom t2 later →
            let st3 := run env p2.1 later in
            let reply := (getEventsAnyName st3 (Some streamerId') (Some requesterId)
                            t3 outcome3).2 in
            responseEvents reply = []
            ∨ ∃ c, t2 ≤ c
                   ∧ responseEvents reply
                     = map publicEvent (newerThan c (bufferOf st3 streamerId'))
                   ∧ storedEvent eventType te d
                     ∉ newerThan c (bufferOf st3 streamerId').
Proof.
  intros env st streamerId requesterId t1 outcome1 lastRequest Hs Hr Hord Hacq Hc
    Hclock p1.
  destruct (poll_registered_anyName st streamerId requesterId t1 outcome1 lastRequest
              Hs Hr Hord Hacq Hc) as (Hresp & Hcur & Hbuf & _ & Hw).
  fold p1 in Hresp, Hcur, Hbuf, Hw.
  assert (Hreg : requesterIdToLastRequestTimestamp p1.1 !! requesterId = Some t1).
  { rewrite Hcur. apply lookup_insert_eq. }
  assert (Hold1 : ∀ h, h ∈ bufferOf p1.1 streamerId → timestamp h ≤ t1).
  { intros h. rewrite Hbuf. intros Hin. apply Hclock, (newerThan_elem _ _ _ Hin). }
  assert (Hat1 : cursorAtLeast p1.1 requesterId t1).
  { exists t1. split; [exact Hreg | lia]. }
  split; [exact Hreg |]. split; [exact Hresp |]. split; [| split].
  - intros Hnone. rewrite Hresp. cbn. rewrite (newerThan_none _ _ Hnone). reflexivity.
  - intros t2 outcome2. apply (poll_nothing_new p1.1 _ _ _ _ t1 Hat1 Hold1).
  - intros eventType d te t2 outcome2 Hkind Ht1 Ht12 Hte2 stE p2.
    destruct (step_upstream_event env p1.1 te streamerId eventType d Hw Hkind)
      as (HbufE & _ & HcurE & HwE & _).
    fold stE in HbufE, HcurE, HwE.
    assert (HcE : cursorOf stE requesterId = Some t1).
    { unfold cursorOf. rewrite HcurE, Hreg. unfold truthyNumber.
      destruct (Z.eqb_spec t1 0); [contradiction | reflexivity]. }
    assert (HacqE : acquirable stE streamerId outcome2).
    { left. rewrite HwE. exact Hw. }
    destruct (poll_registered_anyName stE streamerId requesterId t2 outcome2 t1
                Hs Hr Hord HacqE HcE) as (Hresp2 & Hcur2 & _).
    fold p2 in Hresp2, Hcur2.
    split.
    + rewrite Hresp2. cbn. rewrite HbufE, newerThan_app, (newerThan_none _ _ Hold1).
      cbn. rewrite timestamp_storedEvent. destruct (te >? t1); reflexivity.
    + intros later streamerId' t3 outcome3 Hlater st3 reply.
      assert (Hat3 : cursorAtLeast st3 requesterId t2).
      { apply run_cursorAtLeast; [exact Hlater |].
        exists t2. split; [| lia]. rewrite Hcur2. apply lookup_insert_eq. }
      destruct (poll_selection st3 streamerId' requesterId t3 outcome3 t2 Hat3)
        as [Hnil | (c & Hle & Hsel)]; [left; exact Hnil |].
      right. exists c. split; [exact Hle |]. split; [exact Hsel |].
      apply not_newerThan. rewrite timestamp_storedEvent. lia.
Qed.

Lemma poll_advances_cursor_past_returned_events_witness :
  let st := run noEnv initialState
              [(500, GetEvents (Some "s") (Some "r") ConnectStarted)] in
  let p1 := getEventsAnyName st (Some "s") (Some "r") 1000 ConnectStarted in
  let stE := (step noEnv p1.1 1001 (UpstreamEvent "s" "chat" sampleChat)).1 in
  let p2 := getEventsAnyName stE (Some "s") (Some "r") 1002 ConnectStarted in
  let st3 := run noEnv p2.1 [(1003, UpstreamEvent "s" "like" sampleChat)] in
  let reply := (getEventsAnyName st3 (Some "s") (Some "r") 1004 ConnectStarted).2 in
  requesterIdToLastRequestTimestamp p1.1 !! "r" = Some 1000
  ∧ responseEvents p1.2 = []
  ∧ responseEvents (getEventsAnyName p1.1 (Some "s") (Some "r") 1000 ConnectStarted).2
    = []
  ∧ responseEvents p2.2 = [publicEvent (storedEvent "chat" 1001 sampleChat)]
  ∧ (responseEvents reply = []
     ∨ ∃ c, 1002 ≤ c
            ∧ responseEvents reply = map publicEvent (newerThan c (bufferOf st3 "s"))
            ∧ storedEvent "chat" 1001 sampleChat ∉ newerThan c (bufferOf st3 "s")).
Proof.
  intros st p1 stE p2 st3 reply.
  assert (Hbuf : ∀ h, h ∈ bufferOf st "s" → timestamp h ≤ 500).
  { intros h Hin. vm_compute in Hin. inversion Hin. }
  assert (Hbuf' : ∀ h, h ∈ bufferOf st "s" → timestamp h ≤ 1000).
  { intros h Hin. specialize (Hbuf h Hin). lia. }
  destruct (poll_advances_cursor_past_returned_events noEnv st "s" "r" 1000
              ConnectStarted 500 eq_refl eq_refl eq_refl (or_intror eq_refl) eq_refl
              Hbuf')
    as (Ha & _ & Hb1 & Hb2 & Hc).
  split; [exact Ha |]. split; [exact (Hb1 Hbuf) |].
  split; [exact (Hb2 1000 ConnectStarted) |].
  assert (Hkind : "chat" ∈ eventTypesToStore).
  { unfold eventTypesToStore. rewrite !elem_of_cons. auto 10. }
  assert (H1 : 1000 ≠ 0) by lia.
  assert (H2 : 1000 ≤ 1002) by lia.
  assert (H3 : 1001 ≤ 1002) by lia.
  destruct (Hc "chat" sampleChat 1001 1002 ConnectStarted Hkind H1 H2 H3)
    as [Hp2 Hlater].
  split; [exact Hp2 |].
  apply (Hlater [(1003, UpstreamEvent "s" "like" sampleChat)] "s" 1004 ConnectStarted).
  repeat constructor. cbn. lia.
Defined.
(** ** Upstream events on the push channel *)

(** A subscriber of streamer "s" receives the gift payload as the
    upstream sent it (diamondCount 5), while the envelope stored for the
    same signal carries diamondCount 0: what is emitted is neither the
    envelope nor its data. *)
Lemma broadcast_is_not_the_stored_envelope :
  let st := run noEnv initialState
              [(1, SetStreamerId sampleSocket "s" ArgOther false ConnectStarted)] in
  let d := giftPayload 1 false 5 3 in
  let r := step noEnv st 2 (UpstreamEvent "s" "gift" d) in
  let envelope := storedEvent "gift" 2 d in
  bufferOf r.1 "s" = [envelope]
  ∧ emitted r.2 = [mkEmit sampleSocket "gift" (PData (RawPayload d))]
  ∧ emitted r.2 ≠ [mkEmit sampleSocket "gift" (PEvent envelope)]
  ∧ emitted r.2 ≠ [mkEmit sampleSocket "gift" (PData (data envelope))]
  ∧ diamondCount d = 5
  ∧ envelopeDiamondCount envelope = Some 0.
Proof.
  vm_compute. repeat split; try reflexivity; intros H; discriminate H.
Qed.

(** C6, amended. For every kind of the stored catalogue, a signal of a
    cached handle appends to the streamer's buffer the envelope that the
    kind's transformer builds (the payload tagged with kind and time
    where the kind has no transformer), and sends to every socket of the
    streamer's socket list, once per entry and under the kind's name, the
    raw payload as it was received, not that envelope. *)
Theorem upstream_event_stored_normalized_broadcast_raw :
  ∀ env st now streamerId eventType d,
    is_Some (streamerIdToTikTokConnectionWrapperMap st !! streamerId) →
    eventType ∈ eventTypesToStore →
    let r := step env st now (UpstreamEvent streamerId eventType d) in
    bufferOf r.1 streamerId = bufferOf st streamerId ++ [storedEvent eventType now d]
    ∧ emitted r.2
      = map (λ socket, mkEmit socket eventType (PData (RawPayload d)))
            (default [] (streamerIdToSocketsMap st !! streamerId)).
Proof.
  intros env st now streamerId eventType d Hw Hkind r.
  destruct (step_upstream_event env st now streamerId eventType d Hw Hkind)
    as (Hbuf & _ & _ & _ & _ & Hemit & _).
  split; assumption.
Qed.

Lemma upstream_event_stored_normalized_broadcast_raw_witness :
  let st := run noEnv initialState
              [(1, SetStreamerId sampleSocket "s" ArgOther false ConnectStarted)] in
  let d := giftPayload 1 true 5 3 in
  let r := step noEnv st 2 (UpstreamEvent "s" "gift" d) in
  bufferOf r.1 "s" = bufferOf st "s" ++ [storedEvent "gift" 2 d]
  ∧ emitted r.2
    = map (λ socket, mkEmit socket "gift" (PData (RawPayload d)))
          (default [] (streamerIdToSocketsMap st !! "s")).
Proof.
  apply (upstream_event_stored_normalized_broadcast_raw noEnv _ 2 "s" "gift").
  - vm_compute. eauto.
  - unfold eventTypesToStore. rewrite !elem_of_cons. auto 10.
Defined.

(** ** The disconnect handler finds the list it edits *)

Lemma answerPoll_sockets st streamerId requesterId now :
  streamerIdToSocketsMap (answerPoll st streamerId requesterId now).1
  = streamerIdToSocketsMap st
  ∧ socketTostreamerIdMap (answerPoll st streamerId requesterId now).1
    = socketTostreamerIdMap st.
Proof.
  unfold answerPoll, ensureEventContainer.
  destruct (streamEvents st !! streamerId);
    match goal with
    | |- context [cursorOf ?s ?r] => destruct (cursorOf s r)
    end; split; reflexivity.
Qed.

Lemma recordedHasList_frame st st' :
  socketTostreamerIdMap st' = socketTostreamerIdMap st →
  (∀ k, is_Some (streamerIdToSocketsMap st !! k) →
        is_Some (streamerIdToSocketsMap st' !! k)) →
  recordedHasList st → recordedHasList st'.
Proof.
  intros Hm Hs Hinv key k. rewrite Hm. intros Hk. apply Hs, (Hinv key k Hk).
Qed.

Lemma step_recordedHasList env st now a :
  recordedHasList st → recordedHasList (step env st now a).1.
Proof.
  intros Hinv. destruct a; cbn.
  - destruct (setStreamerIdAnyName_shape env st socket streamerId options blocked
                outcome) as (st1 & st2 & H1 & H2 & H3).
    assert (Hi1 : recordedHasList st1).
    { destruct H1 as [-> | [_ ->]]; [exact Hinv |].
      revert Hinv. apply recordedHasList_frame; [reflexivity |].
      intros k Hk. cbn. rewrite lookup_insert. case_decide; eauto. }
    assert (Hs2 : streamerIdToSocketsMap st2 = streamerIdToSocketsMap st1
                  ∧ socketTostreamerIdMap st2 = socketTostreamerIdMap st1).
    { destruct H2 as [-> | ->]; [auto |].
      destruct (getOrCreateAnyName_frame st1 streamerId (sanitizeOptions env options)
                  outcome) as (_ & _ & Hs & Hm). auto. }
    destruct Hs2 as [Hs2 Hm2].
    assert (Hi2 : recordedHasList st2).
    { revert Hi1. apply recordedHasList_frame; [exact Hm2 |].
      intros k. rewrite Hs2. auto. }
    destruct H3 as [-> | [Hsome ->]]; [exact Hi2 |].
    intros key k. cbn. rewrite lookup_insert. case_decide.
    + intros [= <-]. rewrite lookup_alter_eq, Hs2.
      destruct Hsome as [l ->]. cbn. eauto.
    + intros Hk. destruct (Hi2 key k Hk) as [l' Hl'].
      destruct (decide (k = streamerId)) as [-> | Hne].
      * rewrite lookup_alter_eq, Hl'. cbn. eauto.
      * rewrite lookup_alter_ne by congruence. eauto.
  - unfold onSocketDisconnect.
    destruct (socketTostreamerIdMap st !! socketKey socket) as [recorded|];
      [| exact Hinv].
    destruct (truthyString recorded); [| exact Hinv].
    intros key k. cbn. rewrite lookup_delete. case_decide; [discriminate |].
    intros Hk. destruct (Hinv key k Hk) as [l Hl].
    destruct (decide (k = recorded)) as [-> | Hne].
    + rewrite lookup_alter_eq, Hl. eauto.
    + rewrite lookup_alter_ne by congruence. eauto.
  - destruct (getEventsAnyName_shape st streamerId requesterId now outcome)
      as [H | [(sid & _ & H) | (sid & rid & _ & _ & H)]].
    + destruct (getEventsAnyName st streamerId requesterId now outcome).
      cbn in *. subst. exact Hinv.
    + destruct (getEventsAnyName st streamerId requesterId now outcome).
      cbn in *. subst.
      destruct (getOrCreateAnyName_frame st sid pollOptions outcome)
        as (_ & _ & Hs & Hm).
      revert Hinv. apply recordedHasList_frame; [exact Hm |].
      intros k. rewrite Hs. auto.
    + rewrite H.
      match goal with
      | |- context [answerPollAnyName ?s ?i ?r ?n] =>
          destruct (answerPollAnyName_sockets s i r n) as [Hs' Hm'];
          destruct (answerPollAnyName s i r n) as [st2 resp]
      end.
      cbn in *.
      destruct (getOrCreateAnyName_frame st sid pollOptions outcome)
        as (_ & _ & Hs & Hm).
      revert Hinv. apply recordedHasList_frame; [rewrite Hm', Hm; reflexivity |].
      intros k. rewrite Hs', Hs. auto.
  - destruct (streamerIdToTikTokConnectionWrapperMap st !! streamerId); [| exact Hinv].
    case_decide; [| exact Hinv]. cbn. unfold ensureEventContainer.
    destruct (streamEvents st !! streamerId); exact Hinv.
  - unfold onConnected.
    destruct (streamerIdToTikTokConnectionWrapperMap st !! streamerId) as [w|];
      [| exact Hinv].
    destruct (onceConnected w); exact Hinv.
  - unfold onDisconnected.
    destruct (streamerIdToTikTokConnectionWrapperMap st !! streamerId) as [w|];
      [| exact Hinv].
    destruct (onceDisconnected w); exact Hinv.
  - exact Hinv.
Qed.

Lemma run_recordedHasList env trace :
  ∀ st, recordedHasList st → recordedHasList (run env st trace).
Proof.
  induction trace as [| [now a] rest IH]; intros st Hinv; [exact Hinv |].
  cbn. apply IH, step_recordedHasList, Hinv.
Qed.

Lemma reachable_recordedHasList env trace :
  recordedHasList (run env initialState trace).
Proof.
  apply run_recordedHasList. intros key k Hk. cbn in Hk.
  rewrite lookup_empty in Hk. discriminate.
Qed.

(** ** Subscriber membership *)

Lemma removeFirst_count socket l :
  length (List.filter (λ s, bool_decide (s = socket)) (removeFirst socket l))
  = Nat.pred (length (List.filter (λ s, bool_decide (s = socket)) l)).
Proof.
  induction l as [| s l IH]; [reflexivity |].
  cbn. destruct (decide (s = socket)) as [-> | Hne].
  - rewrite bool_decide_eq_true_2 by reflexivity. reflexivity.
  - rewrite bool_decide_eq_false_2 by assumption. cbn.
    rewrite bool_decide_eq_false_2 by assumption. exact IH.
Qed.

(** One socket subscribes to "a", then to "b", then to "b" again: it is
    in the list of "a" and twice in the list of "b"; its disconnection
    removes one of the three entries. *)
Lemma subscriber_joined_to_two_streamers :
  let st := run noEnv initialState
              [(1, SetStreamerId sampleSocket "a" ArgOther false ConnectStarted);
               (2, SetStreamerId sampleSocket "b" ArgOther false ConnectStarted);
               (3, SetStreamerId sampleSocket "b" ArgOther false ConnectStarted)] in
  let st' := onSocketDisconnect st sampleSocket in
  streamerIdToSocketsMap st !! "a" = Some [sampleSocket]
  ∧ streamerIdToSocketsMap st !! "b" = Some [sampleSocket; sampleSocket]
  ∧ streamerIdToSocketsMap st' !! "a" = Some [sampleSocket]
  ∧ streamerIdToSocketsMap st' !! "b" = Some [sampleSocket].
Proof. vm_compute. repeat split; reflexivity. Qed.

Lemma getOrCreate_acquirable st streamerId options outcome :
  acquirable st streamerId outcome →
  ∃ st2 w,
    getOrCreateTiktokConnectionWrapper st streamerId options outcome = (st2, Handle w)
    ∧ streamerIdToSocketsMap st2 = streamerIdToSocketsMap st
    ∧ socketTostreamerIdMap st2 = socketTostreamerIdMap st.
Proof.
  intros Hacq. unfold getOrCreateTiktokConnectionWrapper.
  destruct (streamerIdToTikTokConnectionWrapperMap st !! streamerId) as [w|] eqn:E.
  - exists st, w. auto.
  - destruct Hacq as [[? ?] | ->]; [congruence |].
    eexists _, _. split; [reflexivity |]. split; reflexivity.
Qed.

Lemma setStreamerId_joined env st socket streamerId options blocked outcome :
  truthyProp (ENABLE_RATE_LIMIT env) && blocked = false →
  acquirable st streamerId outcome →
  let r := setStreamerId env st socket streamerId options blocked outcome in
  streamerIdToSocketsMap r.1
  = <[streamerId := default [] (streamerIdToSocketsMap st !! streamerId) ++ [socket]]>
      (streamerIdToSocketsMap st)
  ∧ socketTostreamerIdMap r.1
    = <[socketKey socket := streamerId]> (socketTostreamerIdMap st)
  ∧ r.2 = [].
Proof.
  intros Hgate Hacq. unfold setStreamerId. rewrite Hgate.
  set (st1 := match streamerIdToSocketsMap st !! streamerId with
              | Some _ => st
              | None => withSockets (insert streamerId []) st
              end).
  assert (Hacq1 : acquirable st1 streamerId outcome).
  { subst st1. destruct (streamerIdToSocketsMap st !! streamerId); exact Hacq. }
  destruct (getOrCreate_acquirable st1 streamerId (sanitizeOptions env options)
              outcome Hacq1) as (st2 & w & -> & Hs & Hm).
  cbn. rewrite Hs, Hm. subst st1.
  destruct (streamerIdToSocketsMap st !! streamerId) as [l|] eqn:E; cbn.
  - repeat split. apply map_eq. intros k. rewrite lookup_insert.
    case_decide; subst.
    + rewrite lookup_alter_eq, E. reflexivity.
    + rewrite lookup_alter_ne by congruence. reflexivity.
  - repeat split. apply map_eq. intros k. rewrite lookup_insert.
    case_decide; subst.
    + rewrite lookup_alter_eq, lookup_insert_eq. reflexivity.
    + rewrite lookup_alter_ne, lookup_insert_ne by congruence. reflexivity.
Qed.

Lemma removeFirst_others socket other l :
  other ≠ socket →
  List.filter (λ s, bool_decide (s = other)) (removeFirst socket l)
  = List.filter (λ s, bool_decide (s = other)) l.
Proof.
  intros Hne. induction l as [| s l IH]; [reflexivity |].
  cbn. destruct (decide (s = socket)) as [-> | Hs].
  - rewrite bool_decide_eq_false_2 by congruence. reflexivity.
  - cbn. rewrite IH. reflexivity.
Qed.

Lemma setStreamerIdAnyName_ordinary env st socket streamerId options blocked outcome :
  inheritedName streamerId = false →
  setStreamerIdAnyName env st socket streamerId options blocked outcome
  = ((setStreamerId env st socket streamerId options blocked outcome).1,
     mkOutput (setStreamerId env st socket streamerId options blocked outcome).2
       None false).
Proof.
  intros Hord. unfold setStreamerIdAnyName, setStreamerId.
  destruct (truthyProp (ENABLE_RATE_LIMIT env) && blocked); [reflexivity |].
  rewrite (readsInherited_ordinary _ streamerId Hord).
  rewrite getOrCreateAnyName_ordinary by assumption.
  destruct (getOrCreateTiktokConnectionWrapper _ streamerId _ outcome)
    as [st2 [w|errStr]]; reflexivity.
Qed.

(** C7, amended. A subscription that is admitted, names a streamer
    identifier that [Object.prototype] does not provide and whose
    upstream can be acquired, appends the socket to the list of the
    streamer it names, whether or not the socket is already in that
    list, changes no other list, records the streamer under the socket's
    key, and sends nothing.  In a state in which every recorded streamer
    has a socket list, as in every state the server reaches, a
    disconnection whose socket has a non-empty streamer recorded under
    its key removes the first entry of that socket from that streamer's
    list, changes no other list and no entry of another socket, and
    clears the record; a disconnection without such a record changes
    nothing. *)
Theorem subscribe_appends_disconnect_removes_one :
  (∀ env st socket streamerId options blocked outcome,
     truthyProp (ENABLE_RATE_LIMIT env) && blocked = false →
     inheritedName streamerId = false →
     acquirable st streamerId outcome →
     let r := setStreamerIdAnyName env st socket streamerId options blocked outcome in
     streamerIdToSocketsMap r.1
     = <[streamerId := default [] (streamerIdToSocketsMap st !! streamerId)
                        ++ [socket]]> (streamerIdToSocketsMap st)
     ∧ socketTostreamerIdMap r.1
       = <[socketKey socket := streamerId]> (socketTostreamerIdMap st)
     ∧ emitted r.2 = []
     ∧ thrown r.2 = false
     ∧ ∀ k, memberships r.1 socket k
            = (memberships st socket k
               + (if decide (k = streamerId) then 1 else 0))%nat)
  ∧ (∀ st socket,
       recordedHasList st →
       let st' := onSocketDisconnect st socket in
       match socketTostreamerIdMap st !! socketKey socket with
       | Some recorded =>
           if truthyString recorded then
             streamerIdToSocketsMap st' !! recorded
             = removeFirst socket <$> streamerIdToSocketsMap st !! recorded
             ∧ (∀ k, k ≠ recorded →
                     streamerIdToSocketsMap st' !! k = streamerIdToSocketsMap st !! k)
             ∧ socketTostreamerIdMap st'
               = delete (socketKey socket) (socketTostreamerIdMap st)
             ∧ memberships st' socket recorded
               = Nat.pred (memberships st socket recorded)
             ∧ (∀ other k, other ≠ socket →
                           memberships st' other k = memberships st other k)
           else st' = st
       | None => st' = st
       end).
Proof.
  split.
  - intros env st socket streamerId options blocked outcome Hgate Hord Hacq r.
    subst r. rewrite setStreamerIdAnyName_ordinary by assumption. cbn.
    destruct (setStreamerId_joined env st socket streamerId options blocked outcome
                Hgate Hacq) as (Hs & Hm & He).
    split; [exact Hs |]. split; [exact Hm |]. split; [exact He |].
    split; [reflexivity |].
    intros k. unfold memberships. rewrite Hs, lookup_insert.
    destruct (decide (streamerId = k)) as [<- | Hne].
    + rewrite decide_True by reflexivity. cbn.
      rewrite List.filter_app, length_app. cbn.
      rewrite bool_decide_eq_true_2 by reflexivity. reflexivity.
    + rewrite decide_False by congruence. lia.
  - intros st socket _. cbv zeta. unfold onSocketDisconnect.
    destruct (socketTostreamerIdMap st !! socketKey socket) as [recorded|];
      [| reflexivity].
    destruct (truthyString recorded); [| reflexivity]. cbn.
    split; [apply lookup_alter_eq |].
    split; [intros k Hk; apply lookup_alter_ne; congruence |].
    split; [reflexivity |]. split.
    + unfold memberships. cbn. rewrite lookup_alter_eq.
      destruct (streamerIdToSocketsMap st !! recorded); cbn; [| reflexivity].
      apply removeFirst_count.
    + intros other k Hne. unfold memberships. cbn.
      destruct (decide (k = recorded)) as [-> | Hk].
      * rewrite lookup_alter_eq.
        destruct (streamerIdToSocketsMap st !! recorded); cbn; [| reflexivity].
        rewrite removeFirst_others by assumption. reflexivity.
      * rewrite lookup_alter_ne by congruence. reflexivity.
Qed.

Lemma subscribe_appends_disconnect_removes_one_witness :
  let other := mkSocket 2 "[object Object]" in
  let st := run noEnv initialState
              [(1, SetStreamerId other "b" ArgOther false ConnectStarted);
               (2, SetStreamerId sampleSocket "a" ArgOther false ConnectStarted)] in
  let r := setStreamerIdAnyName noEnv st sampleSocket "b" ArgOther false
             ConnectStarted in
  let st' := onSocketDisconnect r.1 sampleSocket in
  (streamerIdToSocketsMap r.1
   = <["b" := [other; sampleSocket]]> (streamerIdToSocketsMap st)
   ∧ socketTostreamerIdMap r.1
     = <[socketKey sampleSocket := "b"]> (socketTostreamerIdMap st)
   ∧ emitted r.2 = []
   ∧ thrown r.2 = false)
  ∧ streamerIdToSocketsMap st' !! "b" = Some [other]
  ∧ streamerIdToSocketsMap st' !! "a" = Some [sampleSocket]
  ∧ socketTostreamerIdMap st' !! socketKey sampleSocket = None.
Proof.
  intros other st r st'. split.
  - destruct (proj1 subscribe_appends_disconnect_removes_one noEnv st sampleSocket "b"
                ArgOther false ConnectStarted eq_refl eq_refl (or_intror eq_refl))
      as (H1 & H2 & H3 & H4 & _).
    split; [exact H1 |]. split; [exact H2 |]. split; [exact H3 | exact H4].
  - assert (Hreach : recordedHasList r.1).
    { apply (reachable_recordedHasList noEnv
               [(1, SetStreamerId other "b" ArgOther false ConnectStarted);
                (2, SetStreamerId sampleSocket "a" ArgOther false ConnectStarted);
                (3, SetStreamerId sampleSocket "b" ArgOther false ConnectStarted)]). }
    pose proof (proj2 subscribe_appends_disconnect_removes_one r.1 sampleSocket Hreach)
      as H.
    cbv zeta in H.
    assert (Hrec : socketTostreamerIdMap r.1 !! socketKey sampleSocket = Some "b")
      by reflexivity.
    rewrite Hrec in H. cbn [truthyString String.eqb negb] in H.
    destruct H as (Hb & Hother & Hm & _). subst st'.
    split; [rewrite Hb; reflexivity |].
    split; [rewrite (Hother "a") by discriminate; reflexivity |].
    rewrite Hm. apply lookup_delete_eq.
Defined.
(** ** Failing upstreams *)





(** ** The options given to the constructor *)

Lemma sanitizeOptions_stripped env options :
  sanitizeOptions env options !! "requestOptions" = None
  ∧ sanitizeOptions env options !! "websocketOptions" = None.
Proof.
  unfold sanitizeOptions.
  assert (Hbase : ∀ o : gmap string OptVal,
            delete "websocketOptions" (delete "requestOptions" o) !! "requestOptions"
            = None
            ∧ delete "websocketOptions" (delete "requestOptions" o)
              !! "websocketOptions" = None).
  { intros o. split.
    - rewrite lookup_delete_ne by discriminate. apply lookup_delete_eq.
    - apply lookup_delete_eq. }
  destruct options as [o|];
    destruct (SESSIONID env) as [sessionId|]; try destruct (truthyString sessionId);
    rewrite ?lookup_insert_ne by discriminate;
    first [apply Hbase | split; apply lookup_empty].
Qed.

Lemma sanitizeOptions_session env options credential :
  presentParam (SESSIONID env) = Some credential →
  sanitizeOptions env options !! "sessionId" = Some (OStr credential).
Proof.
  unfold sanitizeOptions, presentParam.
  destruct (SESSIONID env) as [sessionId|]; [| discriminate].
  destruct (truthyString sessionId); [| discriminate].
  intros [= ->]. apply lookup_insert_eq.
Qed.

(** An acquisition constructs nothing, or one handle from the options it
    was given. *)
Lemma getOrCreate_constructed st streamerId options outcome :
  let st' := (getOrCreateTiktokConnectionWrapper st streamerId options outcome).1 in
  constructed st' = constructed st
  ∨ (constructed st' = constructed st ++ [(streamerId, options)]
     ∧ ∃ w, streamerIdToTikTokConnectionWrapperMap st' !! streamerId = Some w
            ∧ wrapperOptions w = options).
Proof.
  unfold getOrCreateTiktokConnectionWrapper.
  destruct (streamerIdToTikTokConnectionWrapperMap st !! streamerId);
    [left; reflexivity |].
  destruct outcome; [left; reflexivity |].
  right. cbn. split; [reflexivity |]. eexists. split; [apply lookup_insert_eq |].
  reflexivity.
Qed.

Lemma getOrCreateAnyName_constructed st streamerId options outcome :
  let st' := (getOrCreateTiktokConnectionWrapperAnyName st streamerId options
                outcome).1 in
  constructed st' = constructed st
  ∨ (constructed st' = constructed st ++ [(streamerId, options)]
     ∧ ∃ w, streamerIdToTikTokConnectionWrapperMap st' !! streamerId = Some w
            ∧ wrapperOptions w = options).
Proof.
  cbv zeta. unfold getOrCreateTiktokConnectionWrapperAnyName.
  destruct (readsInherited (streamerIdToTikTokConnectionWrapperMap st) streamerId);
    [left; reflexivity |].
  pose proof (getOrCreate_constructed st streamerId options outcome) as H.
  destruct (getOrCreateTiktokConnectionWrapper st streamerId options outcome).
  exact H.
Qed.

(** C9. Whenever a dispatch constructs an upstream handle, the options
    given to the constructor have no requestOptions and no
    websocketOptions member.  On the push path they are the client's
    options without these two members (the empty object if the client
    sent none), and if the environment holds a session identifier, their
    sessionId is that identifier whatever the client sent.  On the pull
    path they are the object built by the server, which holds nothing a
    caller supplied.  No other dispatch constructs a handle. *)
Theorem constructor_options_are_sanitized :
  ∀ env st now a,
    let st' := (step env st now a).1 in
    constructed st' = constructed st
    ∨ ∃ streamerId options w,
        constructed st' = constructed st ++ [(streamerId, options)]
        ∧ streamerIdToTikTokConnectionWrapperMap st' !! streamerId = Some w
        ∧ wrapperOptions w = options
        ∧ options !! "requestOptions" = None
        ∧ options !! "websocketOptions" = None
        ∧ match a with
          | SetStreamerId _ target clientOptions _ _ =>
              streamerId = target
              ∧ options = sanitizeOptions env clientOptions
              ∧ match presentParam (SESSIONID env) with
                | Some credential => options !! "sessionId" = Some (OStr credential)
                | None => True
                end
          | GetEvents target _ _ =>
              target = Some streamerId ∧ options = pollOptions
          | _ => False
          end.
Proof.
  intros env st now a. destruct a; cbn.
  - destruct (setStreamerIdAnyName_shape env st socket streamerId options blocked
                outcome) as (st1 & st2 & H1 & H2 & H3).
    assert (Hl1 : constructed st1 = constructed st
                  ∧ streamerIdToTikTokConnectionWrapperMap st1
                    = streamerIdToTikTokConnectionWrapperMap st).
    { destruct H1 as [-> | [_ ->]]; split; reflexivity. }
    destruct Hl1 as [Hl1 Hw1].
    assert (Hl3 : constructed
                    (setStreamerIdAnyName env st socket streamerId options blocked
                       outcome).1 = constructed st2
                  ∧ streamerIdToTikTokConnectionWrapperMap
                      (setStreamerIdAnyName env st socket streamerId options blocked
                         outcome).1
                    = streamerIdToTikTokConnectionWrapperMap st2).
    { destruct H3 as [-> | [_ ->]]; split; reflexivity. }
    destruct Hl3 as [Hl3 Hw3]. rewrite Hl3, Hw3.
    destruct H2 as [-> | ->]; [left; exact Hl1 |].
    pose proof (getOrCreateAnyName_constructed st1 streamerId
                  (sanitizeOptions env options) outcome) as Hc.
    cbv zeta in Hc. rewrite Hl1 in Hc.
    destruct Hc as [Hc | (Hc & w' & Hw & Hopt)]; [left; exact Hc |].
    right. exists streamerId, (sanitizeOptions env options), w'.
    destruct (sanitizeOptions_stripped env options) as [Hr Hws].
    repeat split; try assumption.
    destruct (presentParam (SESSIONID env)) as [credential|] eqn:E;
      [| exact I].
    apply sanitizeOptions_session; exact E.
  - left. unfold onSocketDisconnect.
    destruct (socketTostreamerIdMap st !! socketKey socket); [| reflexivity].
    destruct (truthyString s); reflexivity.
  - assert (Hsome : ∀ sid, presentParam streamerId = Some sid →
                           streamerId = Some sid).
    { intros sid Es. destruct streamerId as [s|]; [| discriminate]. cbn in Es.
      destruct (truthyString s); congruence. }
    assert (Hfinal : ∀ sid st2,
              presentParam streamerId = Some sid →
              constructed st2
              = constructed (getOrCreateTiktokConnectionWrapperAnyName st sid
                               pollOptions outcome).1 →
              streamerIdToTikTokConnectionWrapperMap st2
              = streamerIdToTikTokConnectionWrapperMap
                  (getOrCreateTiktokConnectionWrapperAnyName st sid pollOptions
                     outcome).1 →
              constructed st2 = constructed st
              ∨ ∃ streamerId' options w,
                  constructed st2 = constructed st ++ [(streamerId', options)]
                  ∧ streamerIdToTikTokConnectionWrapperMap st2 !! streamerId' = Some w
                  ∧ wrapperOptions w = options
                  ∧ options !! "requestOptions" = None
                  ∧ options !! "websocketOptions" = None
                  ∧ streamerId = Some streamerId' ∧ options = pollOptions).
    { intros sid st2 Es Hl Hw. rewrite Hl, Hw.
      destruct (getOrCreateAnyName_constructed st sid pollOptions outcome)
        as [Hc | (Hc & w' & Hw' & Hopt)]; [left; exact Hc |].
      right. exists sid, pollOptions, w'. repeat split; try assumption.
      apply Hsome, Es. }
    destruct (getEventsAnyName_shape st streamerId requesterId now outcome)
      as [H | [(sid & Es & H) | (sid & rid & Es & _ & H)]].
    + destruct (getEventsAnyName st streamerId requesterId now outcome).
      cbn in *. subst. left; reflexivity.
    + destruct (getEventsAnyName st streamerId requesterId now outcome).
      cbn in *. subst. apply (Hfinal sid); [exact Es | reflexivity | reflexivity].
    + rewrite H.
      match goal with
      | |- context [answerPollAnyName ?s ?i ?r ?n] =>
          destruct (answerPollAnyName_handles s i r n) as [Hc Hw];
          destruct (answerPollAnyName s i r n) as [st2 resp]
      end.
      cbn in *. apply (Hfinal sid); assumption.
  - left. destruct (streamerIdToTikTokConnectionWrapperMap st !! streamerId);
      [| reflexivity].
    case_decide; [| reflexivity]. cbn.
    apply (ensureEventContainer_handles streamerId st).
  - left. unfold onConnected.
    destruct (streamerIdToTikTokConnectionWrapperMap st !! streamerId) as [w|];
      [| reflexivity].
    destruct (onceConnected w); reflexivity.
  - left. unfold onDisconnected.
    destruct (streamerIdToTikTokConnectionWrapperMap st !! streamerId) as [w|];
      [| reflexivity].
    destruct (onceDisconnected w); reflexivity.
  - left. reflexivity.
Qed.

(** A client that sends transport overrides and a session identifier of
    its own, to a server configured with one: the constructor sees
    neither the overrides nor the client's identifier. *)
Example client_overrides_are_dropped :
  let env := mkEnv (Some "server-session") None in
  let clientOptions :=
    ArgObject (<["requestOptions" := OJson "{}"]>
               (<["websocketOptions" := OJson "{}"]>
                (<["sessionId" := OStr "client-session"]>
                 (<["processInitialData" := OBool false]> ∅)))) in
  constructed
    (step env initialState 1
       (SetStreamerId sampleSocket "s" clientOptions false ConnectStarted)).1
  = [("s", <["sessionId" := OStr "server-session"]>
           (<["processInitialData" := OBool false]> ∅))].
Proof. vm_compute. reflexivity. Qed.

(** * Further properties of server.js *)

(** ** The transformers (lines 20-82, 131-136) *)

(** X1. The stored envelope carries the kind it was stored under and the
    time of the call; its type and data do not depend on that time. *)
Theorem stored_event_kind_and_time :
  ∀ eventType now now' d,
    type (storedEvent eventType now d) = eventType
    ∧ timestamp (storedEvent eventType now d) = now
    ∧ data (storedEvent eventType now' d) = data (storedEvent eventType now d).
Proof.
  intros eventType now now' d. unfold storedEvent, eventTypeToTransformer.
  repeat match goal with
         | |- context [String.eqb ?a ?b] =>
             destruct (String.eqb_spec a b) as [-> | ?]
         end; repeat split; reflexivity.
Qed.

Lemma passThrough_stored eventType now d :
  eventType ∈ passThroughKinds →
  storedEvent eventType now d = mkEvent eventType now (RawPayload d).
Proof.
  unfold passThroughKinds. rewrite !elem_of_cons, elem_of_nil.
  intros Hkind. repeat (destruct Hkind as [-> | Hkind]); try contradiction;
    reflexivity.
Qed.

(** X2. For the kinds 'liveIntro', 'emote', 'envelope' and 'streamEnd' the
    envelope appended to the streamer's buffer carries the raw payload as
    its data, so for these kinds what each subscriber is sent is the data
    of the stored envelope. *)
Theorem pass_through_kinds_store_the_payload :
  ∀ env st now streamerId eventType d socket,
    is_Some (streamerIdToTikTokConnectionWrapperMap st !! streamerId) →
    eventType ∈ passThroughKinds →
    socket ∈ default [] (streamerIdToSocketsMap st !! streamerId) →
    let r := step env st now (UpstreamEvent streamerId eventType d) in
    bufferOf r.1 streamerId
    = bufferOf st streamerId ++ [mkEvent eventType now (RawPayload d)]
    ∧ mkEmit socket eventType (PData (data (storedEvent eventType now d)))
        ∈ emitted r.2.
Proof.
  intros env st now streamerId eventType d socket Hw Hpt Hsock r.
  assert (Hkind : eventType ∈ eventTypesToStore).
  { revert Hpt. unfold passThroughKinds, eventTypesToStore.
    rewrite !elem_of_cons, elem_of_nil. intuition auto 20. }
  destruct (step_upstream_event env st now streamerId eventType d Hw Hkind)
    as (Hbuf & _ & _ & _ & _ & Hemit & _).
  fold r in Hbuf, Hemit. rewrite Hbuf, Hemit, (passThrough_stored _ _ _ Hpt).
  split; [reflexivity |]. cbn.
  apply list_elem_of_fmap. exists socket. split; [reflexivity | exact Hsock].
Qed.

Lemma pass_through_kinds_store_the_payload_witness :
  let st := run noEnv initialState
              [(1, SetStreamerId sampleSocket "s" ArgOther false ConnectStarted)] in
  let r := step noEnv st 2 (UpstreamEvent "s" "emote" sampleChat) in
  bufferOf r.1 "s" = bufferOf st "s" ++ [mkEvent "emote" 2 (RawPayload sampleChat)]
  ∧ mkEmit sampleSocket "emote" (PData (data (storedEvent "emote" 2 sampleChat)))
      ∈ emitted r.2.
Proof.
  apply (pass_through_kinds_store_the_payload noEnv _ 2 "s" "emote" sampleChat
           sampleSocket).
  - vm_compute. eauto.
  - unfold passThroughKinds. rewrite !elem_of_cons. auto.
  - vm_compute. left.
Defined.

(** ** Requests that are turned away (lines 215-220, 166-170, 186-190) *)

(** X3. A poll that lacks one of its two parameters (absent or empty) is
    answered with status 400 and changes nothing, whatever the upstream
    would have done; the missing streamerId is the one reported when
    both are missing. *)
Theorem missing_parameter_is_rejected_without_effect :
  ∀ st streamerId requesterId now outcome,
    presentParam streamerId = None ∨ presentParam requesterId = None →
    getEvents st streamerId requesterId now outcome
    = (st, Status400 match presentParam streamerId with
                     | None => "Missing streamerId parameter."
                     | Some _ => "Missing requesterId parameter."
                     end).
Proof.
  intros st streamerId requesterId now outcome Hmiss. unfold getEvents.
  destruct (presentParam streamerId) as [sid|]; [| reflexivity].
  destruct Hmiss as [Hs | Hr]; [discriminate |]. rewrite Hr. reflexivity.
Qed.

Lemma missing_parameter_is_rejected_without_effect_witness :
  getEvents initialState (Some "") None 5 ConnectStarted
  = (initialState, Status400 "Missing streamerId parameter.").
Proof.
  apply (missing_parameter_is_rejected_without_effect initialState (Some "") None 5
           ConnectStarted).
  left. reflexivity.
Defined.




(** ** The disconnect handler (lines 196-209) *)

Lemma removeFirst_absent socket l : socket ∉ l → removeFirst socket l = l.
Proof.
  induction l as [| s l IH]; [reflexivity |].
  rewrite not_elem_of_cons. intros [Hne Hnot]. cbn.
  rewrite decide_False by congruence. rewrite IH by assumption. reflexivity.
Qed.

Lemma removeFirst_first socket before after :
  socket ∉ before →
  removeFirst socket (before ++ socket :: after) = before ++ after.
Proof.
  induction before as [| s l IH]; cbn.
  - intros _. rewrite decide_True by reflexivity. reflexivity.
  - rewrite not_elem_of_cons. intros [Hne Hnot].
    rewrite decide_False by congruence. rewrite IH by assumption. reflexivity.
Qed.

(** X5. A disconnection whose socket has a non-empty streamer recorded under
    its key removes from that streamer's list the first entry that is
    this socket, keeps the order of the others, leaves the list as it is
    when the socket is not in it, and clears the record. *)
Theorem disconnect_removes_first_entry :
  ∀ st socket streamerId socketList,
    socketTostreamerIdMap st !! socketKey socket = Some streamerId →
    truthyString streamerId = true →
    streamerIdToSocketsMap st !! streamerId = Some socketList →
    let st' := onSocketDisconnect st socket in
    socketTostreamerIdMap st' !! socketKey socket = None
    ∧ (socket ∉ socketList →
       streamerIdToSocketsMap st' !! streamerId = Some socketList)
    ∧ (∀ before after,
         socketList = before ++ socket :: after → socket ∉ before →
         streamerIdToSocketsMap st' !! streamerId = Some (before ++ after)).
Proof.
  intros st socket streamerId socketList Hrec Htruthy Hlist st'.
  subst st'. unfold onSocketDisconnect. rewrite Hrec, Htruthy. cbn.
  rewrite lookup_delete_eq, lookup_alter_eq, Hlist. cbn.
  split; [reflexivity |]. split.
  - intros Hnot. rewrite removeFirst_absent by assumption. reflexivity.
  - intros before after -> Hnot. rewrite removeFirst_first by assumption.
    reflexivity.
Qed.

Lemma disconnect_removes_first_entry_witness :
  let other := mkSocket 2 "[object Object]" in
  let st := run noEnv initialState
              [(1, SetStreamerId other "a" ArgOther false ConnectStarted);
               (2, SetStreamerId sampleSocket "a" ArgOther false ConnectStarted);
               (3, SetStreamerId sampleSocket "a" ArgOther false ConnectStarted)] in
  streamerIdToSocketsMap (onSocketDisconnect st sampleSocket) !! "a"
  = Some ([other] ++ [sampleSocket]).
Proof.
  intros other st.
  destruct (disconnect_removes_first_entry st sampleSocket "a"
              [other; sampleSocket; sampleSocket] eq_refl eq_refl eq_refl)
    as (_ & _ & Hfirst).
  apply (Hfirst [other] [sampleSocket] eq_refl).
  rewrite list_elem_of_singleton. discriminate.
Defined.

(** X6. A disconnection never touches the list entries of another socket,
    in any streamer's list. *)
Theorem disconnect_keeps_other_sockets :
  ∀ st socket other k,
    other ≠ socket →
    memberships (onSocketDisconnect st socket) other k = memberships st other k.
Proof.
  intros st socket other k Hne. unfold onSocketDisconnect.
  destruct (socketTostreamerIdMap st !! socketKey socket) as [recorded|];
    [| reflexivity].
  destruct (truthyString recorded); [| reflexivity].
  unfold memberships. cbn.
  destruct (decide (k = recorded)) as [-> | Hk].
  - rewrite lookup_alter_eq.
    destruct (streamerIdToSocketsMap st !! recorded); cbn; [| reflexivity].
    rewrite removeFirst_others by assumption. reflexivity.
  - rewrite lookup_alter_ne by congruence. reflexivity.
Qed.

Lemma disconnect_keeps_other_sockets_witness :
  let other := mkSocket 2 "[object Object]" in
  let st := run noEnv initialState
              [(1, SetStreamerId other "a" ArgOther false ConnectStarted);
               (2, SetStreamerId sampleSocket "a" ArgOther false ConnectStarted)] in
  memberships (onSocketDisconnect st sampleSocket) other "a" = memberships st other "a".
Proof.
  apply (disconnect_keeps_other_sockets _ sampleSocket (mkSocket 2 "[object Object]")
           "a").
  discriminate.
Defined.

(** X7. Once a socket has disconnected, the disconnection of any socket with
    the same key (the same socket again, or another one whose key
    coincides) changes nothing: the record they share was cleared, or
    was not a non-empty identifier in the first place. *)
Theorem disconnect_after_disconnect_is_void :
  ∀ st first second,
    socketKey second = socketKey first →
    onSocketDisconnect (onSocketDisconnect st first) second
    = onSocketDisconnect st first.
Proof.
  intros st first second Hkey. unfold onSocketDisconnect at 1. rewrite Hkey.
  unfold onSocketDisconnect.
  destruct (socketTostreamerIdMap st !! socketKey first) as [recorded|] eqn:E.
  - destruct (truthyString recorded) eqn:Ht.
    + cbn. rewrite lookup_delete_eq. reflexivity.
    + rewrite E, Ht. reflexivity.
  - rewrite E. reflexivity.
Qed.

Lemma disconnect_after_disconnect_is_void_witness :
  let other := mkSocket 2 "[object Object]" in
  let st := run noEnv initialState
              [(1, SetStreamerId other "a" ArgOther false ConnectStarted);
               (2, SetStreamerId sampleSocket "b" ArgOther false ConnectStarted)] in
  onSocketDisconnect (onSocketDisconnect st sampleSocket) other
  = onSocketDisconnect st sampleSocket.
Proof.
  apply (disconnect_after_disconnect_is_void _ sampleSocket
           (mkSocket 2 "[object Object]")).
  reflexivity.
Defined.

(** ** Delivery on the push channel (line 138) *)

Lemma emitsTo_map socket name p l :
  emitsTo socket (map (λ s, mkEmit s name p) l)
  = length (List.filter (λ s, bool_decide (s = socket)) l).
Proof.
  unfold emitsTo. induction l as [| s l IH]; [reflexivity |].
  cbn. destruct (bool_decide (s = socket)); cbn; rewrite IH; reflexivity.
Qed.

(** X8. A signal of a stored kind is sent to a socket as many times as the
    socket is entered in the streamer's list: not at all to a socket
    that is not in it, twice to one that subscribed twice; and every
    message sent carries the kind as its name. *)
Theorem upstream_event_delivered_once_per_entry :
  ∀ env st now streamerId eventType d socket,
    is_Some (streamerIdToTikTokConnectionWrapperMap st !! streamerId) →
    eventType ∈ eventTypesToStore →
    let r := step env st now (UpstreamEvent streamerId eventType d) in
    emitsTo socket (emitted r.2) = memberships st socket streamerId
    ∧ Forall (λ e, emitName e = eventType) (emitted r.2).
Proof.
  intros env st now streamerId eventType d socket Hw Hkind r.
  destruct (step_upstream_event env st now streamerId eventType d Hw Hkind)
    as (_ & _ & _ & _ & _ & Hemit & _).
  fold r in Hemit. rewrite Hemit. split; [apply emitsTo_map |].
  apply Forall_forall. intros e. rewrite list_elem_of_fmap.
  intros (s & -> & _). reflexivity.
Qed.

Lemma upstream_event_delivered_once_per_entry_witness :
  let st := run noEnv initialState
              [(1, SetStreamerId sampleSocket "s" ArgOther false ConnectStarted);
               (2, SetStreamerId sampleSocket "s" ArgOther false ConnectStarted)] in
  let r := step noEnv st 3 (UpstreamEvent "s" "chat" sampleChat) in
  emitsTo sampleSocket (emitted r.2) = 2%nat
  ∧ Forall (λ e, emitName e = "chat") (emitted r.2).
Proof.
  intros st r.
  change 2%nat with (memberships st sampleSocket "s").
  apply (upstream_event_delivered_once_per_entry noEnv st 3 "s" "chat" sampleChat
           sampleSocket).
  - vm_compute. eauto.
  - unfold eventTypesToStore. rewrite !elem_of_cons. auto 10.
Defined.

(** ** The lifetime of a handle (lines 106-123) *)

Lemma laterStateOf_refl w : laterStateOf w w.
Proof. unfold laterStateOf. auto. Qed.

Lemma laterStateOf_trans w1 w2 w3 :
  laterStateOf w1 w2 → laterStateOf w2 w3 → laterStateOf w1 w3.
Proof.
  unfold laterStateOf. intros (A1 & B1 & C1 & D1 & E1) (A2 & B2 & C2 & D2 & E2).
  repeat split; try congruence; auto.
Qed.

Lemma getOrCreate_persists st streamerId options outcome k w :
  streamerIdToTikTokConnectionWrapperMap st !! k = Some w →
  streamerIdToTikTokConnectionWrapperMap
    (getOrCreateTiktokConnectionWrapper st streamerId options outcome).1 !! k
  = Some w.
Proof.
  intros Hk. unfold getOrCreateTiktokConnectionWrapper.
  destruct (streamerIdToTikTokConnectionWrapperMap st !! streamerId) eqn:E;
    [exact Hk |].
  destruct outcome; [exact Hk |]. cbn.
  rewrite lookup_insert_ne by congruence. exact Hk.
Qed.

Lemma getOrCreateAnyName_persists st streamerId options outcome k w :
  streamerIdToTikTokConnectionWrapperMap st !! k = Some w →
  streamerIdToTikTokConnectionWrapperMap
    (getOrCreateTiktokConnectionWrapperAnyName st streamerId options outcome).1 !! k
  = Some w.
Proof.
  intros Hk.
  destruct (getOrCreateAnyName_fst st streamerId options outcome) as [-> | ->];
    [exact Hk | apply getOrCreate_persists, Hk].
Qed.

Lemma step_handle_persists env st now a k w :
  streamerIdToTikTokConnectionWrapperMap st !! k = Some w →
  ∃ w', streamerIdToTikTokConnectionWrapperMap (step env st now a).1 !! k = Some w'
        ∧ laterStateOf w w'.
Proof.
  intros Hk.
  assert (Hsame : ∀ st', streamerIdToTikTokConnectionWrapperMap st' !! k = Some w →
            ∃ w', streamerIdToTikTokConnectionWrapperMap st' !! k = Some w'
                  ∧ laterStateOf w w').
  { intros st' H. exists w. split; [exact H | apply laterStateOf_refl]. }
  destruct a; cbn.
  - apply Hsame.
    destruct (setStreamerIdAnyName_shape env st socket streamerId options blocked
                outcome) as (st1 & st2 & H1 & H2 & H3).
    assert (Hk1 : streamerIdToTikTokConnectionWrapperMap st1 !! k = Some w).
    { destruct H1 as [-> | [_ ->]]; exact Hk. }
    assert (Hk2 : streamerIdToTikTokConnectionWrapperMap st2 !! k = Some w).
    { destruct H2 as [-> | ->]; [exact Hk1 |].
      apply getOrCreateAnyName_persists, Hk1. }
    destruct H3 as [-> | [_ ->]]; exact Hk2.
  - apply Hsame. unfold onSocketDisconnect.
    destruct (socketTostreamerIdMap st !! socketKey socket); [| exact Hk].
    destruct (truthyString s); exact Hk.
  - apply Hsame.
    destruct (getEventsAnyName_shape st streamerId requesterId now outcome)
      as [H | [(sid & _ & H) | (sid & rid & _ & _ & H)]].
    + destruct (getEventsAnyName st streamerId requesterId now outcome).
      cbn in *. subst. exact Hk.
    + destruct (getEventsAnyName st streamerId requesterId now outcome).
      cbn in *. subst. apply getOrCreateAnyName_persists, Hk.
    + rewrite H.
      match goal with
      | |- context [answerPollAnyName ?s ?i ?r ?n] =>
          destruct (answerPollAnyName_handles s i r n) as [_ Hw];
          destruct (answerPollAnyName s i r n) as [st2 resp]
      end.
      cbn in *. rewrite Hw. apply getOrCreateAnyName_persists, Hk.
  - apply Hsame.
    destruct (streamerIdToTikTokConnectionWrapperMap st !! streamerId); [| exact Hk].
    case_decide; [| exact Hk]. cbn.
    destruct (ensureEventContainer_handles streamerId st) as [_ Hw].
    rewrite Hw. exact Hk.
  - unfold onConnected.
    destruct (streamerIdToTikTokConnectionWrapperMap st !! streamerId) as [h|] eqn:E;
      [| apply Hsame, Hk].
    destruct (onceConnected h) eqn:Ho; [| apply Hsame, Hk].
    cbn. destruct (decide (streamerId = k)) as [-> | Hne].
    + rewrite lookup_insert_eq. eexists. split; [reflexivity |].
      assert (h = w) as -> by congruence.
      unfold laterStateOf. cbn. auto.
    + rewrite lookup_insert_ne by congruence. apply Hsame, Hk.
  - unfold onDisconnected.
    destruct (streamerIdToTikTokConnectionWrapperMap st !! streamerId) as [h|] eqn:E;
      [| apply Hsame, Hk].
    destruct (onceDisconnected h) eqn:Ho; [| apply Hsame, Hk].
    cbn. destruct (decide (streamerId = k)) as [-> | Hne].
    + rewrite lookup_insert_eq. eexists. split; [reflexivity |].
      assert (h = w) as -> by congruence.
      unfold laterStateOf. cbn. auto.
    + rewrite lookup_insert_ne by congruence. apply Hsame, Hk.
  - apply Hsame, Hk.
Qed.

Lemma run_handle_persists env trace :
  ∀ st k w,
    streamerIdToTikTokConnectionWrapperMap st !! k = Some w →
    ∃ w', streamerIdToTikTokConnectionWrapperMap (run env st trace) !! k = Some w'
          ∧ laterStateOf w w'.
Proof.
  induction trace as [| [now a] rest IH]; intros st k w Hk.
  - exists w. split; [exact Hk | apply laterStateOf_refl].
  - cbn. destruct (step_handle_persists env st now a k w Hk) as (w1 & H1 & L1).
    destruct (IH _ k w1 H1) as (w2 & H2 & L2).
    exists w2. split; [exact H2 | eapply laterStateOf_trans; eauto].
Qed.

(** X9. A cached handle is never removed or replaced: whatever is dispatched
    afterwards, the streamer still has a handle, and it is the same
    construction with the options it was built from. *)
Theorem handle_is_never_torn_down :
  ∀ env st trace streamerId w,
    streamerIdToTikTokConnectionWrapperMap st !! streamerId = Some w →
    ∃ w',
      streamerIdToTikTokConnectionWrapperMap (run env st trace) !! streamerId
      = Some w'
      ∧ wrapperOptions w' = wrapperOptions w
      ∧ wrapperSerial w' = wrapperSerial w.
Proof.
  intros env st trace streamerId w Hk.
  destruct (run_handle_persists env trace st streamerId w Hk)
    as (w' & Hw' & _ & Ho & Hs & _).
  exists w'. auto.
Qed.

Lemma handle_is_never_torn_down_witness :
  let st := run noEnv initialState
              [(1, GetEvents (Some "s") (Some "r") ConnectStarted)] in
  ∃ w',
    streamerIdToTikTokConnectionWrapperMap
      (run noEnv st
         [(2, UpstreamDisconnected "s" "stream ended");
          (3, SetStreamerId sampleSocket "s" ArgOther false (ConnectThrows "x"));
          (4, SocketDisconnect sampleSocket)]) !! "s"
    = Some w'
    ∧ wrapperOptions w' = wrapperOptions (mkWrapper "s" pollOptions 0 true true)
    ∧ wrapperSerial w' = wrapperSerial (mkWrapper "s" pollOptions 0 true true).
Proof.
  apply (handle_is_never_torn_down noEnv _ _ "s" (mkWrapper "s" pollOptions 0 true true)).
  reflexivity.
Defined.



(** X11. The 'connected' signal of a handle is relayed at most once: the
    first one goes to every entry of the streamer's socket list, and
    after it no 'connected' signal of that streamer produces a message,
    whatever was dispatched in between.  The same holds for
    'disconnected'. *)
Theorem lifecycle_signal_is_relayed_once :
  ∀ env st now streamerId w text trace now' text',
    streamerIdToTikTokConnectionWrapperMap st !! streamerId = Some w →
    let first := step env st now (UpstreamConnected streamerId text) in
    let firstD := step env st now (UpstreamDisconnected streamerId text) in
    (onceConnected w = true →
     emitted first.2
     = map (λ socket, mkEmit socket "tiktokConnected" (PText text))
           (default [] (streamerIdToSocketsMap st !! streamerId)))
    ∧ emitted (step env (run env first.1 trace) now'
                 (UpstreamConnected streamerId text')).2 = []
    ∧ (onceDisconnected w = true →
       emitted firstD.2
       = map (λ socket, mkEmit socket "tiktokDisconnected" (PText text))
             (default [] (streamerIdToSocketsMap st !! streamerId)))
    ∧ emitted (step env (run env firstD.1 trace) now'
                 (UpstreamDisconnected streamerId text')).2 = [].
Proof.
  intros env st now streamerId w text trace now' text' Hk first firstD.
  assert (HC : ∃ w1, streamerIdToTikTokConnectionWrapperMap first.1 !! streamerId
                     = Some w1 ∧ onceConnected w1 = false).
  { subst first. cbn. unfold onConnected. rewrite Hk.
    destruct (onceConnected w) eqn:Ho; cbn.
    - rewrite lookup_insert_eq. eauto.
    - eauto. }
  assert (HD : ∃ w1, streamerIdToTikTokConnectionWrapperMap firstD.1 !! streamerId
                     = Some w1 ∧ onceDisconnected w1 = false).
  { subst firstD. cbn. unfold onDisconnected. rewrite Hk.
    destruct (onceDisconnected w) eqn:Ho; cbn.
    - rewrite lookup_insert_eq. eauto.
    - eauto. }
  split; [| split; [| split]].
  - intros Ho. subst first. cbn. unfold onConnected, broadcast. rewrite Hk, Ho. cbn.
    destruct (streamerIdToSocketsMap st !! streamerId); reflexivity.
  - destruct HC as (w1 & H1 & Hf).
    destruct (run_handle_persists env trace first.1 streamerId w1 H1)
      as (w2 & H2 & _ & _ & _ & Hc & _).
    revert H2. generalize (run env first.1 trace). intros stR H2.
    cbn. unfold onConnected. rewrite H2, (Hc Hf). reflexivity.
  - intros Ho. subst firstD. cbn. unfold onDisconnected, broadcast. rewrite Hk, Ho.
    cbn. destruct (streamerIdToSocketsMap st !! streamerId); reflexivity.
  - destruct HD as (w1 & H1 & Hf).
    destruct (run_handle_persists env trace firstD.1 streamerId w1 H1)
      as (w2 & H2 & _ & _ & _ & _ & Hd).
    revert H2. generalize (run env firstD.1 trace). intros stR H2.
    cbn. unfold onDisconnected. rewrite H2, (Hd Hf). reflexivity.
Qed.

Lemma lifecycle_signal_is_relayed_once_witness :
  let st := run noEnv initialState
              [(1, SetStreamerId sampleSocket "s" ArgOther false ConnectStarted)] in
  let first := step noEnv st 2 (UpstreamConnected "s" "room 1") in
  emitted first.2 = [mkEmit sampleSocket "tiktokConnected" (PText "room 1")]
  ∧ emitted (step noEnv (run noEnv first.1 []) 3
               (UpstreamConnected "s" "room 1")).2 = [].
Proof.
  intros st first.
  destruct (lifecycle_signal_is_relayed_once noEnv st 2 "s"
              (mkWrapper "s" ∅ 0 true true) "room 1" [] 3 "room 1" eq_refl)
    as (Hfirst & Hsecond & _).
  split; [exact (Hfirst eq_refl) | exact Hsecond].
Defined.

(** ** How a buffer evolves (lines 128-136, 231-245) *)

Lemma answerPollAnyName_buffer st streamerId requesterId now k :
  bufferOf (answerPollAnyName st streamerId requesterId now).1 k = bufferOf st k
  ∨ (k = streamerId
     ∧ bufferOf (answerPollAnyName st streamerId requesterId now).1 k
       = newerThan (now - DELETE_EVENTS_AGE) (bufferOf st k)).
Proof.
  unfold answerPollAnyName.
  set (st0 := if readsInherited (streamEvents st) streamerId then st
              else ensureEventContainer streamerId st).
  assert (H0 : ∀ k', bufferOf st0 k' = bufferOf st k').
  { intros k'. subst st0. destruct (readsInherited (streamEvents st) streamerId);
      [reflexivity | apply bufferOf_ensure]. }
  assert (Hsweep : ∀ events cursors,
            streamEvents st0 !! streamerId = Some events →
            bufferOf (withEvents
                        (insert streamerId (newerThan (now - DELETE_EVENTS_AGE) events))
                        (withCursors cursors st0)) k = bufferOf st k
            ∨ (k = streamerId
               ∧ bufferOf (withEvents
                             (insert streamerId
                                (newerThan (now - DELETE_EVENTS_AGE) events))
                             (withCursors cursors st0)) k
                 = newerThan (now - DELETE_EVENTS_AGE) (bufferOf st k))).
  { intros events cursors E. unfold bufferOf at 1 3. cbn.
    rewrite lookup_insert. case_decide as Hk.
    - right. split; [congruence |]. subst k. cbn. rewrite <- H0.
      unfold bufferOf. rewrite E. reflexivity.
    - left. apply H0. }
  destruct (readsInherited (requesterIdToLastRequestTimestamp st0) requesterId).
  - destruct (streamEvents st0 !! streamerId) as [events|] eqn:E; cbn;
      [apply Hsweep; reflexivity | left; apply H0].
  - destruct (cursorOf st0 requesterId); [| left; apply H0].
    destruct (streamEvents st0 !! streamerId) as [events|] eqn:E; cbn;
      [apply Hsweep; reflexivity | left; apply H0].
Qed.

Lemma step_buffer env st now a k :
  let st' := (step env st now a).1 in
  bufferOf st' k = bufferOf st k
  ∨ (∃ eventType d,
       a = UpstreamEvent k eventType d
       ∧ bufferOf st' k = bufferOf st k ++ [storedEvent eventType now d])
  ∨ (∃ requesterId outcome,
       a = GetEvents (Some k) requesterId outcome
       ∧ bufferOf st' k = newerThan (now - DELETE_EVENTS_AGE) (bufferOf st k)).
Proof.
  destruct a; cbn.
  - left. destruct (setStreamerIdAnyName_pull_side env st socket streamerId options
                      blocked outcome) as [He _].
    apply bufferOf_events, He.
  - left. unfold onSocketDisconnect.
    destruct (socketTostreamerIdMap st !! socketKey socket); [| reflexivity].
    destruct (truthyString s); reflexivity.
  - destruct (getEventsAnyName_shape st streamerId requesterId now outcome)
      as [H | [(sid & _ & H) | (sid & rid & Hs & _ & H)]].
    + destruct (getEventsAnyName st streamerId requesterId now outcome).
      cbn in *. subst. left; reflexivity.
    + destruct (getEventsAnyName st streamerId requesterId now outcome).
      cbn in *. subst. left.
      destruct (getOrCreateAnyName_frame st sid pollOptions outcome) as (He & _).
      apply bufferOf_events, He.
    + assert (streamerId = Some sid) as ->.
      { destruct streamerId as [s|]; [| discriminate]. cbn in Hs.
        destruct (truthyString s); congruence. }
      rewrite H.
      destruct (getOrCreateAnyName_frame st sid pollOptions outcome) as (He & _).
      rewrite <- (bufferOf_events st _ k He).
      match goal with
      | |- context [answerPollAnyName ?s ?i ?r ?n] =>
          destruct (answerPollAnyName_buffer s i r n k) as [Hb | [-> Hb]];
          destruct (answerPollAnyName s i r n) as [st2 resp]
      end; cbn in *.
      * left. exact Hb.
      * right; right. exists requesterId, outcome. split; [reflexivity | exact Hb].
  - destruct (streamerIdToTikTokConnectionWrapperMap st !! streamerId) as [w|] eqn:E;
      [| left; reflexivity].
    destruct (decide (eventType ∈ eventTypesToStore)) as [Hkind | Hn];
      [| left; reflexivity].
    destruct (step_upstream_event env st now streamerId eventType d
                (ex_intro _ w E) Hkind) as (Hb & Hother & _).
    cbn in Hb, Hother. rewrite E in Hb, Hother.
    rewrite decide_True in Hb, Hother by assumption.
    destruct (decide (k = streamerId)) as [-> | Hne].
    + right; left. exists eventType, d. split; [reflexivity | exact Hb].
    + left. apply Hother, Hne.
  - left. unfold onConnected.
    destruct (streamerIdToTikTokConnectionWrapperMap st !! streamerId) as [w|];
      [| reflexivity].
    destruct (onceConnected w); reflexivity.
  - left. unfold onDisconnected.
    destruct (streamerIdToTikTokConnectionWrapperMap st !! streamerId) as [w|];
      [| reflexivity].
    destruct (onceDisconnected w); reflexivity.
  - left. reflexivity.
Qed.

(** X12. A dispatch changes a streamer's buffer in one of two ways only: a
    signal of that streamer's handle appends one envelope stamped with
    the current time, and a poll for that streamer keeps the events
    newer than the current time minus 30 minutes.  Nothing else removes,
    adds or reorders events; in particular a poll never sweeps the
    buffer of a streamer other than the one it names. *)
Theorem buffer_changes_only_by_append_or_sweep :
  ∀ env st now a k,
    let st' := (step env st now a).1 in
    bufferOf st' k = bufferOf st k
    ∨ (∃ eventType d,
         a = UpstreamEvent k eventType d
         ∧ bufferOf st' k = bufferOf st k ++ [storedEvent eventType now d])
    ∨ (∃ requesterId outcome,
         a = GetEvents (Some k) requesterId outcome
         ∧ bufferOf st' k = newerThan (now - DELETE_EVENTS_AGE) (bufferOf st k)).
Proof. exact step_buffer. Qed.

Lemma timeOrdered_newerThan since events :
  timeOrdered events → timeOrdered (newerThan since events).
Proof.
  induction events as [| e l IH]; [trivial |].
  intros [Hhead Htail]. cbn. destruct (timestamp e >? since); [| apply IH, Htail].
  cbn. split; [| apply IH, Htail].
  intros e' He'. apply Hhead. fold (newerThan since l) in He'.
  apply (newerThan_elem since l e' He').
Qed.

Lemma timeOrdered_snoc events e :
  timeOrdered events →
  (∀ e', e' ∈ events → timestamp e' ≤ timestamp e) →
  timeOrdered (events ++ [e]).
Proof.
  induction events as [| x l IH]; cbn.
  - intros _ _. split; [| trivial]. intros e' He'. inversion He'.
  - intros [Hhead Htail] Hall. split.
    + intros e' He'. apply elem_of_app in He' as [He' | He'].
      * apply Hhead, He'.
      * apply list_elem_of_singleton in He'. subst e'. apply Hall. left.
    + apply IH; [exact Htail |]. intros e' He'. apply Hall. right. exact He'.
Qed.

Lemma step_ordered env st now a t :
  t ≤ now →
  (∀ k, timeOrdered (bufferOf st k) ∧ ∀ e, e ∈ bufferOf st k → timestamp e ≤ t) →
  ∀ k, timeOrdered (bufferOf (step env st now a).1 k)
       ∧ ∀ e, e ∈ bufferOf (step env st now a).1 k → timestamp e ≤ now.
Proof.
  intros Hnow Hinv k. destruct (Hinv k) as [Hord Hbound].
  destruct (step_buffer env st now a k)
    as [-> | [(eventType & d & _ & ->) | (rid & outcome & _ & ->)]].
  - split; [exact Hord |]. intros e He. specialize (Hbound e He). lia.
  - split.
    + apply timeOrdered_snoc; [exact Hord |].
      intros e' He'. rewrite timestamp_storedEvent. specialize (Hbound e' He'). lia.
    + intros e He. apply elem_of_app in He as [He | He].
      * specialize (Hbound e He). lia.
      * apply list_elem_of_singleton in He. subst e.
        rewrite timestamp_storedEvent. lia.
  - split; [apply timeOrdered_newerThan, Hord |].
    intros e He. apply newerThan_elem in He. specialize (Hbound e He). lia.
Qed.

Lemma run_ordered env trace :
  ∀ st t,
    monotoneClock t trace →
    (∀ k, timeOrdered (bufferOf st k) ∧ ∀ e, e ∈ bufferOf st k → timestamp e ≤ t) →
    ∀ k, timeOrdered (bufferOf (run env st trace) k).
Proof.
  induction trace as [| [now a] rest IH]; intros st t Hclock Hinv k.
  - apply Hinv.
  - cbn. destruct Hclock as [Hnow Hrest].
    apply (IH _ now Hrest). apply (step_ordered env st now a t Hnow Hinv).
Qed.

Lemma timeOrdered_suffix since events :
  timeOrdered events → ∃ older, events = older ++ newerThan since events.
Proof.
  induction events as [| e l IH]; [exists []; reflexivity |].
  intros [Hhead Htail]. cbn. destruct (Z.gtb_spec (timestamp e) since) as [Hgt | Hle].
  - exists []. cbn. f_equal. fold (newerThan since l).
    assert (Hall : List.filter (λ event, timestamp event >? since) l = l).
    { clear IH Htail. induction l as [| x l IHl]; [reflexivity |].
      cbn. assert (Hx : timestamp e ≤ timestamp x) by (apply Hhead; left).
      destruct (Z.gtb_spec (timestamp x) since); [| lia].
      f_equal. apply IHl. intros e' He'. apply Hhead. right. exact He'. }
    symmetry. exact Hall.
  - destruct (IH Htail) as [older Hol]. exists (e :: older).
    cbn. f_equal. exact Hol.
Qed.

(** X13. With a clock that does not go back, every buffer the server reaches
    is ordered by time stamp, so the events newer than any instant are
    the rear part of the buffer: what a poll returns and what its sweep
    keeps are both obtained by dropping events from the front only. *)
Theorem buffers_stay_time_ordered :
  ∀ env trace t0 k since,
    monotoneClock t0 trace →
    let events := bufferOf (run env initialState trace) k in
    timeOrdered events
    ∧ ∃ older, events = older ++ newerThan since events.
Proof.
  intros env trace t0 k since Hclock events.
  assert (Hord : timeOrdered events).
  { apply (run_ordered env trace initialState t0 Hclock).
    intros k'. split; [exact I |]. intros e He. inversion He. }
  split; [exact Hord | apply timeOrdered_suffix, Hord].
Qed.

Lemma buffers_stay_time_ordered_witness :
  let events :=
    bufferOf (run noEnv initialState
                [(1, GetEvents (Some "s") (Some "r") ConnectStarted);
                 (2, UpstreamEvent "s" "chat" sampleChat);
                 (2, UpstreamEvent "s" "like" sampleChat);
                 (5, UpstreamEvent "s" "gift" sampleChat)]) "s" in
  timeOrdered events ∧ ∃ older, events = older ++ newerThan 2 events.
Proof.
  apply (buffers_stay_time_ordered noEnv _ 0 "s" 2).
  cbn. lia.
Defined.

(** ** The options of a subscription (lines 152-164) *)

(** X14. Sanitizing keeps every member of the client's options other than
    requestOptions, websocketOptions and sessionId as the client sent
    it, and keeps the client's sessionId too when the environment holds
    no session identifier; an argument that is not an object counts as
    the empty object. *)
Theorem sanitize_keeps_other_members :
  ∀ env o key,
    key ≠ "requestOptions" →
    key ≠ "websocketOptions" →
    key ≠ "sessionId" ∨ presentParam (SESSIONID env) = None →
    sanitizeOptions env (ArgObject o) !! key = o !! key
    ∧ sanitizeOptions env ArgOther = sanitizeOptions env (ArgObject ∅).
Proof.
  intros env o key Hr Hw Hs. unfold sanitizeOptions, presentParam in *.
  assert (Hbase : delete "websocketOptions" (delete "requestOptions" o) !! key
                  = o !! key).
  { rewrite !lookup_delete_ne by congruence. reflexivity. }
  assert (Hempty : delete "websocketOptions"
                     (delete "requestOptions" (∅ : gmap string OptVal)) = ∅).
  { apply map_eq. intros i. rewrite !lookup_delete, lookup_empty.
    repeat case_decide; reflexivity. }
  rewrite Hempty. split; [| reflexivity].
  destruct (SESSIONID env) as [sessionId|]; [| exact Hbase].
  destruct (truthyString sessionId); [| exact Hbase].
  destruct Hs as [Hs | Hs]; [| discriminate].
  rewrite lookup_insert_ne by congruence. exact Hbase.
Qed.

Lemma sanitize_keeps_other_members_witness :
  sanitizeOptions noEnv
    (ArgObject (<["requestOptions" := OJson "{}"]>
                  {[ "sessionId" := OStr "client-session" ]})) !! "sessionId"
  = Some (OStr "client-session").
Proof.
  destruct (sanitize_keeps_other_members noEnv
              (<["requestOptions" := OJson "{}"]>
                 {[ "sessionId" := OStr "client-session" ]}) "sessionId")
    as [H _].
  - discriminate.
  - discriminate.
  - right. reflexivity.
  - rewrite H. reflexivity.
Defined.

(** ** What a dispatch leaves alone *)

(** X15. A poll changes no socket list and no socket record and sends nothing
    on the push channel; an upstream signal changes no cursor, no socket
    list and no socket record; a subscription, a disconnection, the
    two control signals and the statistic timer change no buffer and no
    cursor.  Only a poll is replied to. *)
Theorem pull_and_push_sides_are_separate :
  ∀ env st now a,
    let r := step env st now a in
    match a with
    | GetEvents _ _ _ =>
        streamerIdToSocketsMap r.1 = streamerIdToSocketsMap st
        ∧ socketTostreamerIdMap r.1 = socketTostreamerIdMap st
        ∧ emitted r.2 = []
        ∧ is_Some (replied r.2)
    | UpstreamEvent _ _ _ =>
        requesterIdToLastRequestTimestamp r.1 = requesterIdToLastRequestTimestamp st
        ∧ streamerIdToSocketsMap r.1 = streamerIdToSocketsMap st
        ∧ socketTostreamerIdMap r.1 = socketTostreamerIdMap st
        ∧ replied r.2 = None
    | _ =>
        streamEvents r.1 = streamEvents st
        ∧ requesterIdToLastRequestTimestamp r.1 = requesterIdToLastRequestTimestamp st
        ∧ replied r.2 = None
    end.
Proof.
  intros env st now a. destruct a; cbn.
  - destruct (setStreamerIdAnyName_pull_side env st socket streamerId options blocked
                outcome) as [He Hc].
    split; [exact He |]. split; [exact Hc |].
    unfold setStreamerIdAnyName.
    destruct (truthyProp (ENABLE_RATE_LIMIT env) && blocked); [reflexivity |].
    destruct (readsInherited (streamerIdToSocketsMap st) streamerId);
      match goal with
      | |- context [getOrCreateTiktokConnectionWrapperAnyName ?s ?i ?o ?c] =>
          destruct (getOrCreateTiktokConnectionWrapperAnyName s i o c)
            as [st2 [[w|errStr]|]]
      end; reflexivity.
  - unfold onSocketDisconnect.
    destruct (socketTostreamerIdMap st !! socketKey socket); [| auto].
    destruct (truthyString s); auto.
  - destruct (getEventsAnyName_shape st streamerId requesterId now outcome)
      as [H | [(sid & _ & H) | (sid & rid & _ & _ & H)]].
    + destruct (getEventsAnyName st streamerId requesterId now outcome).
      cbn in *. subst. eauto.
    + destruct (getEventsAnyName st streamerId requesterId now outcome).
      cbn in *. subst.
      destruct (getOrCreateAnyName_frame st sid pollOptions outcome)
        as (_ & _ & Hs & Hm).
      eauto.
    + rewrite H.
      match goal with
      | |- context [answerPollAnyName ?s ?i ?r ?n] =>
          destruct (answerPollAnyName_sockets s i r n) as [Hs' Hm'];
          destruct (answerPollAnyName s i r n) as [st2 resp]
      end.
      cbn in *.
      destruct (getOrCreateAnyName_frame st sid pollOptions outcome)
        as (_ & _ & Hs & Hm).
      rewrite Hs', Hm', Hs, Hm. eauto.
  - destruct (streamerIdToTikTokConnectionWrapperMap st !! streamerId); [| auto].
    case_decide; [| auto]. cbn. unfold ensureEventContainer.
    destruct (streamEvents st !! streamerId); auto.
  - unfold onConnected.
    destruct (streamerIdToTikTokConnectionWrapperMap st !! streamerId) as [w|];
      [| auto].
    destruct (onceConnected w); auto.
  - unfold onDisconnected.
    destruct (streamerIdToTikTokConnectionWrapperMap st !! streamerId) as [w|];
      [| auto].
    destruct (onceDisconnected w); auto.
  - auto.
Qed.

(** ** Who is sent messages *)

Lemma removeFirst_elem socket l s : s ∈ removeFirst socket l → s ∈ l.
Proof.
  induction l as [| x l IH]; cbn; [trivial |].
  destruct (decide (x = socket)).
  - intros H. right. exact H.
  - rewrite !elem_of_cons. intros [-> | H]; [left; reflexivity | right; auto].
Qed.

Lemma broadcast_listed st streamerId name p e :
  e ∈ broadcast st streamerId name p → listed st (emitTo e).
Proof.
  unfold broadcast, listed. intros He. exists streamerId.
  destruct (streamerIdToSocketsMap st !! streamerId) as [l|]; [| inversion He].
  apply list_elem_of_fmap in He as (s & -> & Hs). exact Hs.
Qed.

Lemma listed_sockets st st' s :
  streamerIdToSocketsMap st' = streamerIdToSocketsMap st →
  listed st' s → listed st s.
Proof. unfold listed. intros ->. trivial. Qed.

(** What a subscription does to the lists and what it emits. *)
Lemma setStreamerIdAnyName_listed env st socket streamerId options blocked outcome :
  let r := setStreamerIdAnyName env st socket streamerId options blocked outcome in
  (∀ s, listed r.1 s → listed st s ∨ s = socket)
  ∧ (∀ e, e ∈ emitted r.2 → emitTo e = socket).
Proof.
  cbv zeta. split.
  - destruct (setStreamerIdAnyName_shape env st socket streamerId options blocked
                outcome) as (st1 & st2 & H1 & H2 & H3).
    assert (L1 : ∀ s, listed st1 s → listed st s).
    { destruct H1 as [-> | [E ->]]; [auto |].
      intros s [k Hk]. cbn in Hk. rewrite lookup_insert in Hk.
      case_decide; [inversion Hk | exists k; exact Hk]. }
    assert (Hs2 : streamerIdToSocketsMap st2 = streamerIdToSocketsMap st1).
    { destruct H2 as [-> | ->]; [reflexivity |].
      destruct (getOrCreateAnyName_frame st1 streamerId (sanitizeOptions env options)
                  outcome) as (_ & _ & Hs & _). exact Hs. }
    destruct H3 as [-> | [_ ->]].
    + intros s Hl. left. apply L1. revert Hl. apply listed_sockets, Hs2.
    + intros s [k Hk]. cbn in Hk. rewrite Hs2 in Hk.
      destruct (decide (k = streamerId)) as [-> | Hne].
      * rewrite lookup_alter_eq in Hk.
        destruct (streamerIdToSocketsMap st1 !! streamerId) as [l|] eqn:E;
          cbn in Hk; [| inversion Hk].
        apply elem_of_app in Hk as [Hk | Hk].
        -- left. apply L1. exists streamerId. rewrite E. exact Hk.
        -- right. apply list_elem_of_singleton in Hk. exact Hk.
      * rewrite lookup_alter_ne in Hk by congruence. left. apply L1. exists k.
        exact Hk.
  - unfold setStreamerIdAnyName.
    destruct (truthyProp (ENABLE_RATE_LIMIT env) && blocked); cbn.
    { intros e He. apply list_elem_of_singleton in He. subst e. reflexivity. }
    destruct (readsInherited (streamerIdToSocketsMap st) streamerId);
      match goal with
      | |- context [getOrCreateTiktokConnectionWrapperAnyName ?s ?i ?o ?c] =>
          destruct (getOrCreateTiktokConnectionWrapperAnyName s i o c)
            as [st2 [[w|errStr]|]]
      end; cbn; intros e He;
      first [apply list_elem_of_singleton in He; subst e; reflexivity
            | inversion He].
Qed.

Lemma step_listed env st now a s :
  listed (step env st now a).1 s →
  listed st s ∨ ∃ streamerId options blocked outcome,
                  a = SetStreamerId s streamerId options blocked outcome.
Proof.
  destruct a; cbn.
  - destruct (setStreamerIdAnyName_listed env st socket streamerId options blocked
                outcome) as [Hl _].
    intros H. destruct (Hl s H) as [H' | ->]; [left; exact H' |].
    right. eauto.
  - intros H. left. revert H. unfold onSocketDisconnect.
    destruct (socketTostreamerIdMap st !! socketKey socket) as [recorded|]; [| auto].
    destruct (truthyString recorded); [| auto].
    intros [k Hk]. cbn in Hk. exists k.
    destruct (decide (k = recorded)) as [-> | Hne].
    + rewrite lookup_alter_eq in Hk.
      destruct (streamerIdToSocketsMap st !! recorded); cbn in *; [| exact Hk].
      apply (removeFirst_elem _ _ _ Hk).
    + rewrite lookup_alter_ne in Hk by congruence. exact Hk.
  - intros H. left. revert H.
    destruct (getEventsAnyName_shape st streamerId requesterId now outcome)
      as [H | [(sid & _ & H) | (sid & rid & _ & _ & H)]].
    + destruct (getEventsAnyName st streamerId requesterId now outcome).
      cbn in *. subst. auto.
    + destruct (getEventsAnyName st streamerId requesterId now outcome).
      cbn in *. subst.
      destruct (getOrCreateAnyName_frame st sid pollOptions outcome)
        as (_ & _ & Hs & _).
      apply listed_sockets, Hs.
    + rewrite H.
      match goal with
      | |- context [answerPollAnyName ?s ?i ?r ?n] =>
          destruct (answerPollAnyName_sockets s i r n) as [Hs' _];
          destruct (answerPollAnyName s i r n) as [st2 resp]
      end.
      cbn in *.
      destruct (getOrCreateAnyName_frame st sid pollOptions outcome)
        as (_ & _ & Hs & _).
      apply listed_sockets. rewrite Hs', Hs. reflexivity.
  - intros H. left. revert H.
    destruct (streamerIdToTikTokConnectionWrapperMap st !! streamerId); [| auto].
    case_decide; [| auto]. cbn. unfold ensureEventContainer.
    destruct (streamEvents st !! streamerId); auto.
  - intros H. left. revert H. unfold onConnected.
    destruct (streamerIdToTikTokConnectionWrapperMap st !! streamerId) as [w|];
      [| auto].
    destruct (onceConnected w); auto.
  - intros H. left. revert H. unfold onDisconnected.
    destruct (streamerIdToTikTokConnectionWrapperMap st !! streamerId) as [w|];
      [| auto].
    destruct (onceDisconnected w); auto.
  - auto.
Qed.

Lemma step_emits_listed env st now a e :
  e ∈ emitted (step env st now a).2 →
  listed st (emitTo e)
  ∨ (∃ streamerId options blocked outcome,
       a = SetStreamerId (emitTo e) streamerId options blocked outcome)
  ∨ (emitName e = "statistic" ∧ ∃ count, emitPayload e = PStatistic count).
Proof.
  destruct a; cbn.
  - destruct (setStreamerIdAnyName_listed env st socket streamerId options blocked
                outcome) as [_ He].
    intros H. rewrite (He e H). right; left. eauto.
  - intros H. inversion H.
  - destruct (getEventsAnyName st streamerId requesterId now outcome). cbn.
    intros H. inversion H.
  - destruct (streamerIdToTikTokConnectionWrapperMap st !! streamerId);
      [| intros H; inversion H].
    case_decide; [| intros Hin; inversion Hin]. cbn. intros Hin. left.
    apply broadcast_listed in Hin. revert Hin. apply listed_sockets.
    unfold ensureEventContainer. destruct (streamEvents st !! streamerId); reflexivity.
  - unfold onConnected.
    destruct (streamerIdToTikTokConnectionWrapperMap st !! streamerId) as [w|];
      [| intros H; inversion H].
    destruct (onceConnected w); [| intros H; inversion H].
    cbn. intros H. left. apply (broadcast_listed _ _ _ _ _ H).
  - unfold onDisconnected.
    destruct (streamerIdToTikTokConnectionWrapperMap st !! streamerId) as [w|];
      [| intros H; inversion H].
    destruct (onceDisconnected w); [| intros H; inversion H].
    cbn. intros H. left. apply (broadcast_listed _ _ _ _ _ H).
  - intros H. right; right. apply list_elem_of_fmap in H as (s & -> & _).
    cbn. eauto.
Qed.

Lemma runOutputs_targets env trace :
  ∀ st out e,
    out ∈ runOutputs env st trace → e ∈ emitted out →
    listed st (emitTo e)
    ∨ emitTo e ∈ askedToSubscribe trace
    ∨ (emitName e = "statistic" ∧ ∃ count, emitPayload e = PStatistic count).
Proof.
  induction trace as [| [now a] rest IH]; intros st out e Hout He;
    [inversion Hout |].
  cbn in Hout. apply elem_of_cons in Hout as [-> | Hout].
  - destruct (step_emits_listed env st now a e He)
      as [Hl | [(sid & o & b & c & ->) | Hstat]];
      [left; exact Hl | | right; right; exact Hstat].
    right; left. cbn. left.
  - destruct (IH _ out e Hout He) as [Hl | [Hin | Hstat]];
      [| | right; right; exact Hstat].
    + destruct (step_listed env st now a _ Hl) as [Hl' | (sid & o & b & c & ->)];
        [left; exact Hl' |].
      right; left. cbn. left.
    + right; left. destruct a; cbn; try exact Hin. right. exact Hin.
Qed.

(** X16. Along every run from the initial state, a message on the push
    channel is the periodic 'statistic' count, or it goes to a socket
    that sent a subscription in that run (admitted or not): polls,
    upstream signals and disconnections never cause a message to any
    other socket. *)
Theorem messages_go_to_sockets_that_subscribed :
  ∀ env trace out e,
    out ∈ runOutputs env initialState trace →
    e ∈ emitted out →
    emitTo e ∈ askedToSubscribe trace
    ∨ (emitName e = "statistic" ∧ ∃ count, emitPayload e = PStatistic count).
Proof.
  intros env trace out e Hout He.
  destruct (runOutputs_targets env trace initialState out e Hout He)
    as [[k Hk] | Hin]; [| exact Hin].
  cbn in Hk. rewrite lookup_empty in Hk. inversion Hk.
Qed.

Lemma messages_go_to_sockets_that_subscribed_witness :
  let other := mkSocket 2 "[object Object]" in
  let trace := [(1, SetStreamerId sampleSocket "s" ArgOther false ConnectStarted);
                (2, StatisticTick [sampleSocket; other] 1);
                (3, UpstreamEvent "s" "chat" sampleChat)] in
  sampleSocket ∈ askedToSubscribe trace
  ∨ (emitName (mkEmit sampleSocket "chat" (PData (RawPayload sampleChat)))
     = "statistic"
     ∧ ∃ count, emitPayload (mkEmit sampleSocket "chat"
                               (PData (RawPayload sampleChat)))
                = PStatistic count).
Proof.
  intros other trace.
  apply (messages_go_to_sockets_that_subscribed noEnv trace
           (mkOutput [mkEmit sampleSocket "chat" (PData (RawPayload sampleChat))]
              None false)
           (mkEmit sampleSocket "chat" (PData (RawPayload sampleChat)))).
  - vm_compute. right. right. left.
  - left.
Defined.
(** ** Identifiers that [Object.prototype] provides and those it does not *)

(** X17. For a streamer identifier that [Object.prototype] does not
    provide, in every state the server reaches the identifier has been
    given to at most one successful construction.  If a handle is cached
    for it, an acquisition returns that handle and leaves the state as it
    is, whatever options the call carries and whatever a new connection
    attempt would have done; if none is cached, a call whose construction
    succeeds caches and returns a handle built from that call's options,
    which is then the only construction for the identifier. *)
Theorem one_handle_per_ordinary_streamer :
  ∀ env trace streamerId options outcome,
    inheritedName streamerId = false →
    let st := run env initialState trace in
    (constructedFor st streamerId ≤ 1)%nat
    ∧ match streamerIdToTikTokConnectionWrapperMap st !! streamerId with
      | Some cached =>
          constructedFor st streamerId = 1%nat
          ∧ getOrCreateTiktokConnectionWrapperAnyName st streamerId options outcome
            = (st, Ordinary (Handle cached))
      | None =>
          let r := getOrCreateTiktokConnectionWrapperAnyName st streamerId options
                     ConnectStarted in
          constructedFor st streamerId = 0%nat
          ∧ (∃ w, r.2 = Ordinary (Handle w)
                  ∧ wrapperOptions w = options
                  ∧ streamerIdToTikTokConnectionWrapperMap r.1 !! streamerId = Some w)
          ∧ constructedFor r.1 streamerId = 1%nat
      end.
Proof.
  intros env trace streamerId options outcome Hord st.
  pose proof (run_handleInv env trace _ initialState_handleInv) as Hinv.
  fold st in Hinv.
  pose proof (Hinv streamerId) as Hk.
  pose proof (getOrCreate_handleInv st streamerId options ConnectStarted Hinv streamerId)
    as Hnext.
  rewrite !getOrCreateAnyName_ordinary by assumption.
  unfold getOrCreateTiktokConnectionWrapper in *.
  destruct (streamerIdToTikTokConnectionWrapperMap st !! streamerId) as [w|] eqn:E.
  - split; [lia |]. split; [exact Hk | reflexivity].
  - split; [lia |]. cbn [fst snd] in *. split; [exact Hk |]. split.
    + eexists. split; [reflexivity |]. split; [reflexivity |].
      cbn. apply lookup_insert_eq.
    + rewrite Hnext. cbn. rewrite lookup_insert_eq. reflexivity.
Qed.

Lemma one_handle_per_ordinary_streamer_witness :
  let st := run noEnv initialState
              [(1, SetStreamerId sampleSocket "s" ArgOther false ConnectStarted);
               (2, GetEvents (Some "s") (Some "r") ConnectStarted)] in
  (constructedFor st "s" ≤ 1)%nat
  ∧ constructedFor st "s" = 1%nat
  ∧ getOrCreateTiktokConnectionWrapperAnyName st "s" pollOptions
      (ConnectThrows "Error: offline")
    = (st, Ordinary (Handle (mkWrapper "s" ∅ 0 true true))).
Proof.
  intros st.
  pose proof (one_handle_per_ordinary_streamer noEnv
                [(1, SetStreamerId sampleSocket "s" ArgOther false ConnectStarted);
                 (2, GetEvents (Some "s") (Some "r") ConnectStarted)]
                "s" pollOptions (ConnectThrows "Error: offline") eq_refl) as H.
  cbv zeta in H. fold st in H.
  assert (Hw : streamerIdToTikTokConnectionWrapperMap st !! "s"
               = Some (mkWrapper "s" ∅ 0 true true)) by reflexivity.
  rewrite Hw in H. destruct H as (H1 & H2 & H3).
  split; [exact H1 |]. split; [exact H2 | exact H3].
Defined.

Lemma answerPollAnyName_fresh st streamerId requesterId now :
  inheritedName requesterId = false →
  cursorOf st requesterId = None →
  (answerPollAnyName st streamerId requesterId now).2
  = Json [] (Some registeredMessage)
  ∧ requesterIdToLastRequestTimestamp
      (answerPollAnyName st streamerId requesterId now).1
    = <[requesterId := now]> (requesterIdToLastRequestTimestamp st)
  ∧ ∀ k, bufferOf (answerPollAnyName st streamerId requesterId now).1 k
         = bufferOf st k.
Proof.
  intros Hord Hc. unfold answerPollAnyName.
  destruct (answerPollAnyName_start st streamerId) as [Hcur Hbuf].
  cbv zeta in Hcur, Hbuf.
  set (st0 := if readsInherited (streamEvents st) streamerId then st
              else ensureEventContainer streamerId st) in *.
  rewrite (readsInherited_ordinary _ requesterId Hord).
  assert (Hc0 : cursorOf st0 requesterId = None).
  { unfold cursorOf. rewrite Hcur. exact Hc. }
  rewrite Hc0. cbn. rewrite Hcur. split; [reflexivity |]. split; [reflexivity |].
  intros k. apply (Hbuf k).
Qed.

(** An acquisition for a cached or constructible handle, or under a name
    that [Object.prototype] provides, reports no failure. *)
Lemma getOrCreateAnyName_passes st streamerId options outcome :
  acquirable st streamerId outcome ∨ inheritedName streamerId = true →
  ∀ errStr,
    (getOrCreateTiktokConnectionWrapperAnyName st streamerId options outcome).2
    ≠ Ordinary (Failure errStr).
Proof.
  intros Hacq errStr.
  unfold getOrCreateTiktokConnectionWrapperAnyName, readsInherited,
    getOrCreateTiktokConnectionWrapper.
  destruct (streamerIdToTikTokConnectionWrapperMap st !! streamerId) as [w|] eqn:E;
    [discriminate |].
  destruct (inheritedName streamerId) eqn:Ei; [discriminate |].
  destruct Hacq as [[[w Hw] | ->] | Hf]; [congruence | discriminate | discriminate].
Qed.

(** X18. A well-formed poll of a requester that has no cursor yet and whose
    identifier [Object.prototype] does not provide, on a streamer whose
    upstream can be acquired or whose identifier is taken for a handle,
    answers with no events and the registration message, however many
    events are buffered; it leaves every buffer as it was and sets the
    requester's cursor to the current time.  From then on, with a clock
    that does not go back, a poll of that requester (for any streamer,
    after any further activity) returns nothing or the events of the
    polled buffer that are newer than a cursor not below that time; so
    none of the events that were buffered when it first polled, which
    carry the time of their arrival, is ever returned to it. *)
Theorem first_poll_of_ordinary_requester_registers :
  ∀ env st streamerId requesterId now outcome later streamerId' now' outcome',
    cursorOf st requesterId = None →
    inheritedName requesterId = false →
    truthyString streamerId = true →
    truthyString requesterId = true →
    acquirable st streamerId outcome ∨ inheritedName streamerId = true →
    (∀ k h, h ∈ bufferOf st k → timestamp h ≤ now) →
    clockFrom now later →
    let r := getEventsAnyName st (Some streamerId) (Some requesterId) now outcome in
    let st' := run env r.1 later in
    let reply := (getEventsAnyName st' (Some streamerId') (Some requesterId)
                    now' outcome').2 in
    r.2 = Json [] (Some registeredMessage)
    ∧ requesterIdToLastRequestTimestamp r.1 !! requesterId = Some now
    ∧ (∀ k, bufferOf r.1 k = bufferOf st k)
    ∧ (responseEvents reply = []
       ∨ ∃ c, now ≤ c
              ∧ responseEvents reply
                = map publicEvent (newerThan c (bufferOf st' streamerId'))
              ∧ ∀ k h, h ∈ bufferOf st k →
                       h ∉ newerThan c (bufferOf st' streamerId')).
Proof.
  intros env st streamerId requesterId now outcome later streamerId' now' outcome'
    Hc Hord Hs Hr Hacq Hhist Hclock r st' reply.
  assert (Hfirst : r.2 = Json [] (Some registeredMessage)
                   ∧ requesterIdToLastRequestTimestamp r.1
                     = <[requesterId := now]> (requesterIdToLastRequestTimestamp st)
                   ∧ ∀ k, bufferOf r.1 k = bufferOf st k).
  { subst r. unfold getEventsAnyName. rewrite !presentParam_Some by assumption.
    pose proof (getOrCreateAnyName_frame st streamerId pollOptions outcome)
      as (He & Hcur & _).
    pose proof (getOrCreateAnyName_passes st streamerId pollOptions outcome Hacq)
      as Hpass.
    destruct (getOrCreateTiktokConnectionWrapperAnyName st streamerId pollOptions
                outcome) as [st1 [[w|errStr]|]]; cbn in He, Hcur, Hpass;
      [| exfalso; apply (Hpass errStr); reflexivity |];
      (assert (Hc1 : cursorOf st1 requesterId = None)
         by (unfold cursorOf; rewrite Hcur; exact Hc));
      destruct (answerPollAnyName_fresh st1 streamerId requesterId now Hord Hc1)
        as (H1 & H2 & H3);
      (split; [exact H1 |]); (split; [rewrite H2, Hcur; reflexivity |]);
      intros k; rewrite H3; apply bufferOf_events, He. }
  destruct Hfirst as (Hresp & Hcur & Hbuf).
  assert (Hreg : requesterIdToLastRequestTimestamp r.1 !! requesterId = Some now).
  { rewrite Hcur. apply lookup_insert_eq. }
  split; [exact Hresp |]. split; [exact Hreg |]. split; [exact Hbuf |].
  assert (Hat : cursorAtLeast st' requesterId now).
  { apply run_cursorAtLeast; [exact Hclock |]. exists now. split; [exact Hreg | lia]. }
  destruct (poll_selection st' streamerId' requesterId now' outcome' now Hat)
    as [Hnil | (c & Hle & Hsel)]; [left; exact Hnil |].
  right. exists c. split; [exact Hle |]. split; [exact Hsel |].
  intros k h Hk. apply not_newerThan. specialize (Hhist k h Hk). lia.
Qed.

Lemma first_poll_of_ordinary_requester_registers_witness :
  let st := run noEnv initialState
              [(1000, GetEvents (Some "s") (Some "other") ConnectStarted);
               (2000, UpstreamEvent "s" "chat" sampleChat)] in
  let r := getEventsAnyName st (Some "s") (Some "r") 3000 ConnectStarted in
  let st' := run noEnv r.1 [(3500, UpstreamEvent "s" "chat" sampleChat)] in
  let reply := (getEventsAnyName st' (Some "s") (Some "r") 4000 ConnectStarted).2 in
  r.2 = Json [] (Some registeredMessage)
  ∧ requesterIdToLastRequestTimestamp r.1 !! "r" = Some 3000
  ∧ (∀ k, bufferOf r.1 k = bufferOf st k)
  ∧ (responseEvents reply = []
     ∨ ∃ c, 3000 ≤ c
            ∧ responseEvents reply = map publicEvent (newerThan c (bufferOf st' "s"))
            ∧ ∀ k h, h ∈ bufferOf st k → h ∉ newerThan c (bufferOf st' "s")).
Proof.
  apply (first_poll_of_ordinary_requester_registers noEnv _ "s" "r" 3000 ConnectStarted
           [(3500, UpstreamEvent "s" "chat" sampleChat)] "s" 4000 ConnectStarted).
  - reflexivity.
  - reflexivity.
  - reflexivity.
  - reflexivity.
  - left. right. reflexivity.
  - intros k h Hin. unfold bufferOf in Hin.
    assert (Hev : streamEvents
                    (run noEnv initialState
                       [(1000, GetEvents (Some "s") (Some "other") ConnectStarted);
                        (2000, UpstreamEvent "s" "chat" sampleChat)])
                  = {[ "s" := [storedEvent "chat" 2000 sampleChat] ]}).
    { vm_compute. reflexivity. }
    rewrite Hev, lookup_singleton in Hin. case_decide; cbn in Hin.
    + apply list_elem_of_singleton in Hin. subst h. cbn. lia.
    + inversion Hin.
  - repeat constructor. cbn. lia.
Defined.

Lemma inheritedName_truthy k : inheritedName k = true → truthyString k = true.
Proof.
  unfold inheritedName, objectPrototypeNames. intros H.
  apply bool_decide_eq_true_1 in H. rewrite !elem_of_cons, elem_of_nil in H.
  repeat (destruct H as [-> | H]; [reflexivity |]). contradiction.
Qed.

Lemma setStreamerIdAnyName_noInheritedList env st socket streamerId options blocked
    outcome k :
  inheritedName k = true →
  streamerIdToSocketsMap st !! k = None →
  streamerIdToSocketsMap
    (setStreamerIdAnyName env st socket streamerId options blocked outcome).1 !! k
  = None.
Proof.
  intros Hk Hnone. unfold setStreamerIdAnyName.
  destruct (truthyProp (ENABLE_RATE_LIMIT env) && blocked); [exact Hnone |].
  destruct (readsInherited (streamerIdToSocketsMap st) streamerId) eqn:Er.
  - pose proof (getOrCreateAnyName_frame st streamerId (sanitizeOptions env options)
                  outcome) as (_ & _ & Hs & _).
    destruct (getOrCreateTiktokConnectionWrapperAnyName st streamerId
                (sanitizeOptions env options) outcome) as [st2 [[w|e]|]];
      cbn in Hs |- *; rewrite Hs; exact Hnone.
  - assert (Hne : k ≠ streamerId).
    { intros ->. unfold readsInherited in Er. rewrite Hnone, Hk in Er.
      discriminate. }
    match goal with
    | |- context [getOrCreateTiktokConnectionWrapperAnyName ?s ?i ?o ?c] =>
        pose proof (getOrCreateAnyName_frame s i o c) as (_ & _ & Hs & _);
        destruct (getOrCreateTiktokConnectionWrapperAnyName s i o c)
          as [st2 [[w|e]|]]
    end; cbn in Hs |- *; rewrite ?lookup_alter_ne by congruence; rewrite Hs;
      (destruct (streamerIdToSocketsMap st !! streamerId); cbn;
       rewrite ?lookup_insert_ne by congruence; exact Hnone).
Qed.

Lemma answerPollAnyName_noInheritedBuffer st streamerId requesterId now k :
  inheritedName k = true →
  streamEvents st !! k = None →
  streamEvents (answerPollAnyName st streamerId requesterId now).1 !! k = None.
Proof.
  intros Hk Hnone. unfold answerPollAnyName.
  set (st0 := if readsInherited (streamEvents st) streamerId then st
              else ensureEventContainer streamerId st).
  assert (H0 : streamEvents st0 !! k = None).
  { subst st0. destruct (readsInherited (streamEvents st) streamerId) eqn:Er;
      [exact Hnone |].
    unfold ensureEventContainer.
    destruct (streamEvents st !! streamerId) eqn:E; [exact Hnone |].
    cbn. rewrite lookup_insert_ne; [exact Hnone |].
    intros ->. unfold readsInherited in Er. rewrite E, Hk in Er. discriminate. }
  assert (Hsweep : ∀ events, streamEvents st0 !! streamerId = Some events →
                             k ≠ streamerId).
  { intros events E ->. congruence. }
  destruct (readsInherited (requesterIdToLastRequestTimestamp st0) requesterId).
  - destruct (streamEvents st0 !! streamerId) as [events|] eqn:E; cbn;
      [| exact H0].
    rewrite lookup_insert_ne; [exact H0 |].
    intros Heq. apply (Hsweep events eq_refl). congruence.
  - destruct (cursorOf st0 requesterId); [| exact H0].
    destruct (streamEvents st0 !! streamerId) as [events|] eqn:E; cbn;
      [| exact H0].
    rewrite lookup_insert_ne; [exact H0 |].
    intros Heq. apply (Hsweep events eq_refl). congruence.
Qed.

Lemma step_noInheritedStreamer env st now a :
  noInheritedHandle st → noInheritedStreamer st →
  noInheritedStreamer (step env st now a).1.
Proof.
  intros Hh Hinv k Hk. destruct (Hinv k Hk) as [He Hs]. destruct a; cbn.
  - split.
    + destruct (setStreamerIdAnyName_pull_side env st socket streamerId options
                  blocked outcome) as [Hev _].
      rewrite Hev. exact He.
    + apply setStreamerIdAnyName_noInheritedList; assumption.
  - unfold onSocketDisconnect.
    destruct (socketTostreamerIdMap st !! socketKey socket) as [recorded|];
      [| auto].
    destruct (truthyString recorded); [| auto]. cbn. split; [exact He |].
    destruct (decide (k = recorded)) as [-> | Hne].
    + rewrite lookup_alter_eq, Hs. reflexivity.
    + rewrite lookup_alter_ne by congruence. exact Hs.
  - destruct (getEventsAnyName_shape st streamerId requesterId now outcome)
      as [H | [(sid & _ & H) | (sid & rid & _ & _ & H)]].
    + destruct (getEventsAnyName st streamerId requesterId now outcome).
      cbn in *. subst. auto.
    + destruct (getEventsAnyName st streamerId requesterId now outcome).
      cbn in *. subst.
      destruct (getOrCreateAnyName_frame st sid pollOptions outcome)
        as (Hev & _ & Hso & _).
      rewrite Hev, Hso. auto.
    + rewrite H.
      destruct (getOrCreateAnyName_frame st sid pollOptions outcome)
        as (Hev & _ & Hso & _).
      match goal with
      | |- context [answerPollAnyName ?s ?i ?r ?n] =>
          pose proof (answerPollAnyName_noInheritedBuffer s i r n k Hk) as Hb;
          destruct (answerPollAnyName_sockets s i r n) as [Hs' _];
          destruct (answerPollAnyName s i r n) as [st2 resp]
      end.
      cbn in *. rewrite Hs', Hso. split; [| exact Hs].
      apply Hb. rewrite Hev. exact He.
  - destruct (streamerIdToTikTokConnectionWrapperMap st !! streamerId) as [w|] eqn:E;
      [| auto].
    case_decide; [| auto]. cbn.
    assert (Hne : k ≠ streamerId).
    { intros ->. rewrite (Hh streamerId Hk) in E. discriminate. }
    rewrite lookup_alter_ne by congruence.
    unfold ensureEventContainer.
    destruct (streamEvents st !! streamerId); cbn;
      rewrite ?lookup_insert_ne by congruence; auto.
  - unfold onConnected.
    destruct (streamerIdToTikTokConnectionWrapperMap st !! streamerId) as [w|];
      [| auto].
    destruct (onceConnected w); auto.
  - unfold onDisconnected.
    destruct (streamerIdToTikTokConnectionWrapperMap st !! streamerId) as [w|];
      [| auto].
    destruct (onceDisconnected w); auto.
  - auto.
Qed.

Lemma run_noInheritedStreamer env trace :
  ∀ st, noInheritedHandle st → noInheritedStreamer st →
        noInheritedStreamer (run env st trace).
Proof.
  induction trace as [| [now a] rest IH]; intros st Hh Hinv; [exact Hinv |].
  cbn. apply IH; [apply step_noInherited, Hh | apply step_noInheritedStreamer; assumption].
Qed.

(** X19. A streamer identifier that [Object.prototype] provides is never
    served.  In every state the server reaches, no handle was constructed
    for it; every acquisition takes the inherited member for a cached
    handle and changes nothing; a poll of a registered requester for it
    changes nothing and is answered with status 500; and a subscription
    that the limiter admits changes nothing, sends nothing and throws. *)
Theorem inherited_streamer_name_is_never_served :
  ∀ env trace streamerId,
    inheritedName streamerId = true →
    let st := run env initialState trace in
    constructedFor st streamerId = 0%nat
    ∧ (∀ options outcome,
         getOrCreateTiktokConnectionWrapperAnyName st streamerId options outcome
         = (st, InheritedMember))
    ∧ (∀ requesterId lastRequest now outcome,
         truthyString requesterId = true →
         cursorOf st requesterId = Some lastRequest →
         getEventsAnyName st (Some streamerId) (Some requesterId) now outcome
         = (st, Status500))
    ∧ (∀ env' socket options blocked outcome,
         truthyProp (ENABLE_RATE_LIMIT env') && blocked = false →
         setStreamerIdAnyName env' st socket streamerId options blocked outcome
         = (st, mkOutput [] None true)).
Proof.
  intros env trace streamerId Hinh st.
  assert (Hh0 : noInheritedHandle initialState).
  { intros k _. apply lookup_empty. }
  assert (Hs0 : noInheritedStreamer initialState).
  { intros k _. split; apply lookup_empty. }
  pose proof (run_noInherited env trace initialState Hh0 streamerId Hinh) as Hw.
  destruct (run_noInheritedStreamer env trace initialState Hh0 Hs0 streamerId Hinh)
    as [He Hso].
  pose proof (run_handleInv env trace _ initialState_handleInv streamerId) as Hc.
  fold st in Hw, He, Hso, Hc. rewrite Hw in Hc.
  assert (Hacq : ∀ options outcome,
            getOrCreateTiktokConnectionWrapperAnyName st streamerId options outcome
            = (st, InheritedMember)).
  { intros options outcome.
    unfold getOrCreateTiktokConnectionWrapperAnyName, readsInherited.
    rewrite Hw, Hinh. reflexivity. }
  split; [exact Hc |]. split; [exact Hacq |]. split.
  - intros requesterId lastRequest now outcome Hr Hcur.
    unfold getEventsAnyName.
    rewrite (presentParam_Some streamerId (inheritedName_truthy _ Hinh)).
    rewrite (presentParam_Some requesterId Hr), Hacq.
    unfold answerPollAnyName.
    assert (Hre : readsInherited (streamEvents st) streamerId = true).
    { unfold readsInherited. rewrite He. exact Hinh. }
    rewrite Hre.
    assert (Hown : is_Some (requesterIdToLastRequestTimestamp st !! requesterId)).
    { unfold cursorOf in Hcur.
      destruct (requesterIdToLastRequestTimestamp st !! requesterId); [eauto |].
      discriminate. }
    rewrite (readsInherited_own _ _ Hown), Hcur, He. reflexivity.
  - intros env' socket options blocked outcome Hgate.
    unfold setStreamerIdAnyName. rewrite Hgate.
    assert (Hrs : readsInherited (streamerIdToSocketsMap st) streamerId = true).
    { unfold readsInherited. rewrite Hso. exact Hinh. }
    rewrite Hrs, Hacq. reflexivity.
Qed.

Lemma inherited_streamer_name_is_never_served_witness :
  let st := run noEnv initialState
              [(1, GetEvents (Some "toString") (Some "r") ConnectStarted);
               (2, SetStreamerId sampleSocket "toString" ArgOther false
                     ConnectStarted)] in
  constructedFor st "toString" = 0%nat
  ∧ getOrCreateTiktokConnectionWrapperAnyName st "toString" pollOptions ConnectStarted
    = (st, InheritedMember)
  ∧ getEventsAnyName st (Some "toString") (Some "r") 3 ConnectStarted
    = (st, Status500)
  ∧ setStreamerIdAnyName noEnv st sampleSocket "toString" ArgOther false
      ConnectStarted
    = (st, mkOutput [] None true).
Proof.
  intros st.
  destruct (inherited_streamer_name_is_never_served noEnv
              [(1, GetEvents (Some "toString") (Some "r") ConnectStarted);
               (2, SetStreamerId sampleSocket "toString" ArgOther false
                     ConnectStarted)]
              "toString" eq_refl) as (H1 & H2 & H3 & H4).
  split; [exact H1 |]. split; [apply H2 |].
  split; [apply (H3 "r" 1); reflexivity | apply H4; reflexivity].
Defined.
